(** * The astronomical core of the Indian sidereal clock

    A shallow embedding of [utils/helpers.py] (time conversion, sunrise
    crossing, sidereal-time matching, alt/az inversion, per-star positions)
    and of the ancient-unit arithmetic of [app.py].

    Number model.  Python floats are embedded as exact rationals [Q]
    (equality is [==]); NaN and infinities are outside the model.  An
    astropy [Time] is embedded as its Julian Date on the UTC scale, a
    [datetime] as a day count on the same axis, so that one hour is [1/24]
    and one minute [1/1440].

    Rounding.  In the exact model a strict inequality, or the open end of
    an interval, can hold where rounding makes the two sides equal.  For
    the scalar expressions where that happens two further embeddings are
    given: [Rounded] evaluates them with an arbitrary monotone rounding
    after each operation, and [Binary64] evaluates them on IEEE 754
    binary64 values, the floats of Python and numpy.

    External library calls (astropy's location constructor, solar
    position, coordinate transform and apparent sidereal time, numpy's
    [hypot]) are not code of this repository: they are taken as section
    variables, and instantiated by simple concrete functions where a
    definition has to be run. *)

From Stdlib Require Import Reals Lra Floats.
From Stdlib Require Import QArith Qround Qabs Qpower Qcanon Qreals Lqa Lia ZArith List String Bool.
Import ListNotations.

Local Open Scope Q_scope.

(** ** Python float arithmetic, over the rationals *)

Module PyFloat.

(** A float value, without rounding; rationals are kept in lowest terms
    so that the iterative solvers below can be run. *)
Definition float (x : Q) : Q := Qred x.

(** [x % m] for floats, without rounding: the result takes the sign of the
    divisor, [x - m * floor (x / m)].  Only used with the constant divisors
    24 and 360 (a zero divisor raises in Python).  With rounding the result
    can be [m] itself: see [Rounded.float_rem] and [Binary64.float_rem]. *)
Definition fmod (x m : Q) : Q := x - m * inject_Z (Qfloor (x / m)).

Definition ltb (x y : Q) : bool := negb (Qle_bool y x).
Definition leb (x y : Q) : bool := Qle_bool x y.
Definition geb (x y : Q) : bool := Qle_bool y x.
Definition gtb (x y : Q) : bool := negb (Qle_bool x y).
Definition neqb (x y : Q) : bool := negb (Qeq_bool x y).

(** [Series.clip(lower, upper)] on one value. *)
Definition clip (x lower upper : Q) : Q :=
  if ltb x lower then lower else if gtb x upper then upper else x.

(** [range(n)]: empty when [n <= 0]. *)
Definition range (n : Z) : list Z := map Z.of_nat (seq 0 (Z.to_nat n)).

End PyFloat.

Import PyFloat.

(** ** Instants and observer locations *)

(** astropy [Time] on the UTC scale, by its Julian Date. *)
Definition Time := Q.

(** A naive [datetime], as days on the Julian Date axis. *)
Definition datetime := Q.

(** A [datetime.date], by its proleptic Gregorian ordinal
    ([date.toordinal()]). *)
Definition date := Z.

(** [timedelta(hours=h)], [timedelta(minutes=m)] and astropy's
    [n * u.hour], in days. *)
Definition timedelta_hours (h : Q) : Q := h / 24.
Definition timedelta_minutes (m : Q) : Q := m / 1440.
Definition u_hour (n : Q) : Q := n / 24.

(** [Time(x, format="jd", scale="utc")]. *)
Definition Time_jd (x : Q) : Time := float x.

(** [datetime.combine(d, time(0, 0, 0))]: ordinal 1 is 0001-01-01, whose
    midnight has Julian Date 1721425.5. *)
Definition combine_midnight (d : date) : datetime := inject_Z d + 1721424.5.

(** An observer location, by the geodetic coordinates it is built from.
    (astropy keeps geocentric coordinates computed from them; nothing
    below reads a coordinate back from an astropy object.) *)
Record EarthLocation : Type := mkEarthLocation {
  loc_lat : Q;       (* degrees *)
  loc_lon : Q;       (* degrees East *)
  loc_height : Q     (* metres *)
}.

Section Location.

(** astropy's [EarthLocation(lat=, lon=, height=)]; [None] stands for the
    exception it raises. *)
Variable astropy_EarthLocation : Q -> Q -> Q -> option EarthLocation.

(** [to_earthlocation]: the three arguments go to the constructor, and
    what it returns or raises is what the function returns or raises. *)
Definition to_earthlocation (lat_deg lon_deg height_m : Q) : option EarthLocation :=
  astropy_EarthLocation lat_deg lon_deg height_m.

End Location.

(** What astropy's constructor refuses: a latitude outside [-90, 90]
    degrees (with a [ValueError]), and nothing else; every longitude and
    every height is taken. *)
Definition checks_latitude_only
    (constructor : Q -> Q -> Q -> option EarthLocation) : Prop :=
  forall lat lon height,
    constructor lat lon height = None <-> (lat < -90 \/ 90 < lat).

(** A constructor of that kind, the location being represented by the
    arguments it is built from. *)
Definition geodetic_location (lat lon height : Q) : option EarthLocation :=
  if leb (-90) lat && leb lat 90
  then Some (mkEarthLocation lat lon height)
  else None.

(** [time_from_local_localdt]: naive local datetime and timezone offset to
    UTC. *)
Definition time_from_local_localdt (local_dt : datetime) (tz_offset_hours : Q) : Time :=
  let utc_dt := local_dt - timedelta_hours tz_offset_hours in
  utc_dt.

(** ** Sunrise by upward crossing of the Sun's altitude through -0.833 deg *)

Section Sunrise.

(** [get_sun(t).transform_to(AltAz(obstime=t, location=loc)).alt.degree] *)
Variable sun_alt_degree : EarthLocation -> Time -> Q.

Definition target : Q := -0.833.

Definition minutes_in_day : Z := 24 * 60.

(** [minutes_in_day // step_minutes + 1] (floor division, as [Z.div]). *)
Definition n_steps (step_minutes : Z) : Z := (minutes_in_day / step_minutes + 1)%Z.

Definition times_list (start_utc_dt : datetime) (step_minutes : Z) : list Time :=
  map (fun i => start_utc_dt + timedelta_minutes (inject_Z (step_minutes * i)))
      (range (n_steps step_minutes)).

(** The test of the scanning loop at index [i]. *)
Definition crossing_at (alt_vals : list Q) (i : nat) : bool :=
  ltb (nth i alt_vals 0) target && geb (nth (S i) alt_vals 0) target.

(** [for i in range(len(alt_vals) - 1)]: the first index, from [i] on and
    among the next [todo] ones, at which the test succeeds. *)
Fixpoint scan (alt_vals : list Q) (i todo : nat) : option nat :=
  match todo with
  | O => None
  | S todo' =>
      if crossing_at alt_vals i then Some i
      else scan alt_vals (S i) todo'
  end.

(** The crossing fraction, with the source's guard on the denominator. *)
Definition crossing_frac (a0 a1 : Q) : Q :=
  if neqb a1 a0 then (target - a0) / (a1 - a0) else 0.

(** The instant returned from inside the loop at index [i]. *)
Definition interpolate (times : list Time) (alt_vals : list Q) (i : nat) : Time :=
  let a0 := nth i alt_vals 0 in
  let a1 := nth (S i) alt_vals 0 in
  let frac := crossing_frac a0 a1 in
  Time_jd (nth i times 0 + frac * (nth (S i) times 0 - nth i times 0)).

(** The local variables [start_utc_dt], [times] and [alt_vals] of the
    solver. *)
Definition start_utc_dt (local_date : date) (tz_offset_hours : Q) : datetime :=
  let local_midnight := combine_midnight local_date in
  local_midnight - timedelta_hours tz_offset_hours.

Definition sampled_times (local_date : date) (tz_offset_hours : Q)
    (step_minutes : Z) : list Time :=
  times_list (start_utc_dt local_date tz_offset_hours) step_minutes.

Definition sampled_alts (local_date : date) (location : EarthLocation)
    (tz_offset_hours : Q) (step_minutes : Z) : list Q :=
  map (sun_alt_degree location) (sampled_times local_date tz_offset_hours step_minutes).

(** [None] stands for an exception: the [ZeroDivisionError] of a zero
    step, and the [ValueError] of a negative one, for which [range] is
    empty and [Time] is given an empty list. *)
Definition approximate_sunrise_utc_for_local_date
    (local_date : date) (location : EarthLocation)
    (tz_offset_hours : Q) (step_minutes : Z) : option Time :=
  if (step_minutes <=? 0)%Z then None
  else
    let times := sampled_times local_date tz_offset_hours step_minutes in
    let alt_vals := sampled_alts local_date location tz_offset_hours step_minutes in
    match scan alt_vals 0 (List.length alt_vals - 1) with
    | Some i => Some (interpolate times alt_vals i)
    | None => Some (start_utc_dt local_date tz_offset_hours)
    end.

End Sunrise.

(** ** Sidereal-time matching by bisection *)

Section Sidereal.

(** [t.sidereal_time(kind="apparent", longitude=lon * u.deg)
      .to(u.hourangle).value] *)
Variable sidereal_time_hourangle : Time -> Q -> Q.

Definition local_sidereal_time_hours (astropy_time : Time) (lon_deg : Q) : Q :=
  sidereal_time_hourangle astropy_time lon_deg.

(** The inner function [f] of [find_time_for_lst]. *)
Definition lst_residual (target_lst_hours lon_deg : Q) (t : Time) : Q :=
  let lst_val := sidereal_time_hourangle t lon_deg in
  fmod (lst_val - target_lst_hours + 12) 24 - 12.

Record bracket : Type := mkBracket {
  br_left : Time; br_right : Time; br_fl : Q; br_fr : Q
}.

(** The widening loop, [n] rounds left. *)
Fixpoint widen (f : Time -> Q) (n : nat) (w : bracket) : bracket :=
  match n with
  | O => w
  | S n' =>
      if leb (br_fl w * br_fr w) 0 then w
      else
        let left := br_left w - u_hour 6 in
        let right := br_right w + u_hour 6 in
        widen f n' (mkBracket left right (f left) (f right))
  end.

(** The bisection loop, [n] rounds left. *)
Fixpoint bisect (f : Time -> Q) (n : nat) (left right : Time) (fl fr : Q) : Time :=
  match n with
  | O => Time_jd ((left + right) / 2)
  | S n' =>
      let mid := Time_jd ((left + right) / 2) in
      let fm := f mid in
      if ltb (Qabs fm) 1e-7 then mid
      else if leb (fl * fm) 0 then bisect f n' left mid fl fm
      else bisect f n' mid right fm fr
  end.

Definition initial_bracket (f : Time -> Q) (approx_time_utc : Time) : bracket :=
  let left := approx_time_utc - u_hour 12 in
  let right := approx_time_utc + u_hour 12 in
  mkBracket left right (f left) (f right).

Definition find_time_for_lst (target_lst_hours : Q) (approx_time_utc : Time)
    (lon_deg : Q) : Time :=
  let f := lst_residual target_lst_hours lon_deg in
  let w := widen f 8 (initial_bracket f approx_time_utc) in
  if gtb (br_fl w * br_fr w) 0 then approx_time_utc
  else bisect f 60 (br_left w) (br_right w) (br_fl w) (br_fr w).

(** The windows the widening loop goes through: window 0 is
    [approx - 12h, approx + 12h], each next one is 6 hours wider on
    either side. *)
Fixpoint window_left (approx_time_utc : Time) (k : nat) : Time :=
  match k with
  | O => approx_time_utc - u_hour 12
  | S k' => window_left approx_time_utc k' - u_hour 6
  end.

Fixpoint window_right (approx_time_utc : Time) (k : nat) : Time :=
  match k with
  | O => approx_time_utc + u_hour 12
  | S k' => window_right approx_time_utc k' + u_hour 6
  end.

Definition window (f : Time -> Q) (approx_time_utc : Time) (k : nat) : bracket :=
  let left := window_left approx_time_utc k in
  let right := window_right approx_time_utc k in
  mkBracket left right (f left) (f right).

(** No root is bracketed by window [k]: [fl * fr > 0]. *)
Definition same_sign_ends (f : Time -> Q) (approx_time_utc : Time) (k : nat) : Prop :=
  0 < f (window_left approx_time_utc k) * f (window_right approx_time_utc k).

End Sidereal.

(** ** Alt/az inversion by ternary search *)

Section AltAz.

(** [SkyCoord(ra=ra_h * u.hourangle, dec=dec_deg * u.deg)
      .transform_to(AltAz(obstime=t, location=loc))], as the pair
    [(alt.degree, az.degree)]. *)
Variable transform_to_altaz : EarthLocation -> Time -> Q -> Q -> Q * Q.

(** [np.hypot] *)
Variable np_hypot : Q -> Q -> Q.

(** The azimuth difference of [error_at_jd]. *)
Definition azimuth_wrap (az target_az_deg : Q) : Q :=
  fmod (az - target_az_deg + 180) 360 - 180.

Definition error_at_jd (target_alt_deg target_az_deg ra_h dec_deg : Q)
    (location : EarthLocation) (jd_val : Q) : Q :=
  let t := Time_jd jd_val in
  let altaz := transform_to_altaz location t ra_h dec_deg in
  let alt := fst altaz in
  let az := snd altaz in
  let da := alt - target_alt_deg in
  let dz := azimuth_wrap az target_az_deg in
  np_hypot da dz.

(** One round of the search loop. *)
Definition ternary_step (err : Q -> Q) (ab : Q * Q) : Q * Q :=
  let a := fst ab in
  let b := snd ab in
  let m1 := float (a + (b - a) / 3) in
  let m2 := float (a + 2 * (b - a) / 3) in
  let f1 := err m1 in
  let f2 := err m2 in
  if ltb f1 f2 then (a, m2) else (m1, b).

Fixpoint ternary (err : Q -> Q) (n : nat) (ab : Q * Q) : Q * Q :=
  match n with
  | O => ab
  | S n' => ternary err n' (ternary_step err ab)
  end.

Definition solve_time_from_altaz (target_alt_deg target_az_deg ra_h dec_deg : Q)
    (approx_time_utc : Time) (location : EarthLocation) : Time * Q :=
  let err := error_at_jd target_alt_deg target_az_deg ra_h dec_deg location in
  let a := approx_time_utc - u_hour 12 in
  let b := approx_time_utc + u_hour 12 in
  let ab := ternary err 80 (a, b) in
  let best := 0.5 * (fst ab + snd ab) in
  (Time_jd best, err best).

(** *** Per-star horizontal positions *)

Record star : Type := mkStar {
  name : string; ra_h : Q; dec_deg : Q; mag : Q
}.

Record star_row : Type := mkRow {
  row_name : string; row_ra_h : Q; row_dec_deg : Q; row_mag : Q;
  alt_deg : Q; az_deg : Q; visible : bool
}.

(** The row appended for one catalog entry. *)
Definition star_position (astropy_time : Time) (location : EarthLocation)
    (r : star) : star_row :=
  let altaz := transform_to_altaz location astropy_time (ra_h r) (dec_deg r) in
  mkRow (name r) (ra_h r) (dec_deg r) (mag r)
        (fst altaz) (snd altaz) (gtb (fst altaz) 0).

(** [df["az_deg"] = np.mod(df["az_deg"], 360.0)] *)
Definition normalize_az (row : star_row) : star_row :=
  mkRow (row_name row) (row_ra_h row) (row_dec_deg row) (row_mag row)
        (alt_deg row) (fmod (az_deg row) 360) (visible row).

(** [df["alt_deg"] = df["alt_deg"].clip(-90.0, 90.0)] *)
Definition clip_alt (row : star_row) : star_row :=
  mkRow (row_name row) (row_ra_h row) (row_dec_deg row) (row_mag row)
        (clip (alt_deg row) (-90) 90) (az_deg row) (visible row).

(** [None] stands for the [KeyError] raised on the column lookup when the
    catalog is empty (a frame built from no rows has no columns).  The
    coordinate transform is taken to return for every star ([SkyCoord]
    refuses a declination outside [-90, 90] degrees): what is stated
    below is about the table when one is returned. *)
Definition compute_stars_positions_for_time (astropy_time : Time)
    (location : EarthLocation) (base_stars_df : list star)
    : option (list star_row) :=
  let rows := map (star_position astropy_time location) base_stars_df in
  match rows with
  | [] => None
  | _ => Some (map clip_alt (map normalize_az rows))
  end.

(** What one output row is, in terms of the transform of its star. *)
Definition row_of (astropy_time : Time) (location : EarthLocation)
    (r : star) (row : star_row) : Prop :=
  let altaz := transform_to_altaz location astropy_time (ra_h r) (dec_deg r) in
  row_name row = name r /\
  alt_deg row = clip (fst altaz) (-90) 90 /\
  az_deg row = fmod (snd altaz) 360 /\
  visible row = gtb (fst altaz) 0.

End AltAz.

(** ** Ancient time units ([app.py]) *)

Record AncientTimeReading : Type := mkReading {
  ghati : Q; muhurta : Q; yama : Q
}.

(** 1 ghati = 24 min = 1440 s *)
Definition ghati_sec : Q := 24 * 60.

(** The arithmetic of [main] on the seconds elapsed since sunrise. *)
Definition ancient_units (seconds_since_sunrise : Q) : AncientTimeReading :=
  let ghati := seconds_since_sunrise / ghati_sec in
  let muhurta := ghati / 2.0 in
  let yama := ghati / 7.5 in
  mkReading ghati muhurta yama.

(** [(a - b).total_seconds()] for two instants. *)
Definition total_seconds (a b : Time) : Q := (a - b) * 86400.

Section AncientClock.

Variable sun_alt_degree : EarthLocation -> Time -> Q.

(** The sunrise actually used by [main]: today's, or yesterday's when the
    current instant is before today's. *)
Definition seconds_since_sunrise (current_date : date) (utc_time : Time)
    (location : EarthLocation) (tz_offset : Q) : option Q :=
  match approximate_sunrise_utc_for_local_date sun_alt_degree
          current_date location tz_offset 10 with
  | None => None
  | Some sunrise_time_utc =>
      let s := total_seconds utc_time sunrise_time_utc in
      if ltb s 0 then
        match approximate_sunrise_utc_for_local_date sun_alt_degree
                (current_date - 1)%Z location tz_offset 10 with
        | None => None
        | Some prev => Some (total_seconds utc_time prev)
        end
      else Some s
  end.

End AncientClock.

(** ** Star catalog ([utils/star_catalog.py]) *)

Definition get_star_catalog : list star :=
  [ mkStar "Chitrā (Spica)" 13.419889 (-11.161319) 0.97;
    mkStar "Lubdhaka / Mrigavyādha (Sirius)" 6.752477 (-16.716116) (-1.46);
    mkStar "Agastya (Canopus)" 6.399192 (-52.695661) (-0.74);
    mkStar "Svātī (Arcturus)" 14.261208 19.182416 (-0.05);
    mkStar "Abhijit (Vega)" 18.615649 38.783691 0.03;
    mkStar "Brahmaṛṣi (Capella)" 5.278155 45.997991 0.08;
    mkStar "Mṛgaśīrṣa (Rigel)" 5.242298 (-8.201639) 0.12;
    mkStar "Bhādrapadā (Procyon)" 7.655033 5.225 0.38;
    mkStar "Ārdrā (Betelgeuse)" 5.919529 7.407064 0.42;
    mkStar "Rohiṇī (Aldebaran)" 4.598677 16.509302 0.75;
    mkStar "Dhruva (Polaris)" 2.530301 89.264109 1.98 ].

(** ** Concrete inputs

    The observer of the application's defaults, and rational stand-ins for
    the astropy calls, on which the definitions above can be run. *)

(** Kolkata: latitude 22.5726, longitude 88.3639 East, height 10 m,
    timezone offset +5.5 h. *)
Definition kolkata : EarthLocation := mkEarthLocation 22.5726 88.3639 10.
Definition kolkata_tz : Q := 5.5.

(** 2024-01-01, whose ordinal is 738886 (local midnight has Julian Date
    2460310.5 on the local clock). *)
Definition new_year_2024 : date := 738886%Z.

(** 2024-01-01 06:00 local time at Kolkata, 00:30 UTC. *)
Definition kolkata_six_am : Time :=
  time_from_local_localdt (combine_midnight new_year_2024 + timedelta_hours 6) kolkata_tz.

(** Mean sidereal time, by the linear formula: 18.697374558 h at Greenwich
    at J2000.0 (Julian Date 2451545.0), advancing 24.06570982441908 h per
    day, plus the longitude at 15 degrees per hour, reduced to [0, 24).
    The apparent sidereal time computed by astropy differs from it by the
    equation of the equinoxes, about a second of time. *)
Definition mean_sidereal_hourangle (t : Time) (lon_deg : Q) : Q :=
  fmod (18.697374558 + 24.06570982441908 * (t - 2451545) + lon_deg / 15) 24.

(** The transit of Spica that follows 2024-01-01 06:00 local time at
    Kolkata, under the mean sidereal time: about 21 minutes later. *)
Definition spica_transit : Time :=
  2451545 + (13.419889 + 24 * 8790 - 18.697374558 - 88.3639 / 15) / 24.06570982441908.

(** A solar altitude that falls off linearly from 90 degrees at local mean
    noon to -90 degrees at local mean midnight. *)
Definition triangle_sun_alt (loc : EarthLocation) (t : Time) : Q :=
  90 - 360 * Qabs (fmod (t + loc_lon loc / 360 + 1 / 2) 1 - 1 / 2).

(** A Sun that stays 5 degrees below the horizon until 23:57 local time of
    2024-01-01 at Kolkata and is 5 degrees above it from then on. *)
Definition late_sun_alt (loc : EarthLocation) (t : Time) : Q :=
  if ltb t (start_utc_dt new_year_2024 kolkata_tz + timedelta_minutes 1437)
  then -5 else 5.

(** A piecewise-linear horizontal position: the altitude falls off with
    the distance in declination from the zenith and with the hour angle,
    the azimuth turns with the hour angle and is left unreduced. *)
Definition linear_altaz (loc : EarthLocation) (t : Time) (ra_h dec_deg : Q) : Q * Q :=
  let ha := mean_sidereal_hourangle t (loc_lon loc) - ra_h in
  let h := fmod (ha + 12) 24 - 12 in
  (90 - Qabs (dec_deg - loc_lat loc) - 7.5 * Qabs h, 15 * ha + 180).

(** A sidereal clock that has stopped at 5 h. *)
Definition stopped_sidereal (t : Time) (lon_deg : Q) : Q := 5.

(** ** The clock of [main] ([app.py]) *)

(** A [datetime.time] with its microseconds cleared; Python keeps
    [hour < 24], [minute < 60] and [second < 60]. *)
Record time_of_day : Type := mkTimeOfDay {
  tod_hour : nat; tod_minute : nat; tod_second : nat
}.

Definition valid_time_of_day (t : time_of_day) : Prop :=
  (tod_hour t < 24)%nat /\ (tod_minute t < 60)%nat /\ (tod_second t < 60)%nat.

Definition seconds_of_day (t : time_of_day) : Z :=
  (3600 * Z.of_nat (tod_hour t) + 60 * Z.of_nat (tod_minute t)
   + Z.of_nat (tod_second t))%Z.

(** [datetime.combine(d, t)] *)
Definition datetime_combine (d : date) (t : time_of_day) : datetime :=
  combine_midnight d + inject_Z (seconds_of_day t) / 86400.

(** [dt.date()] *)
Definition datetime_date (dt : datetime) : date := Qfloor (dt - 1721424.5).

(** [timedelta(days=n)] *)
Definition timedelta_days (n : Q) : Q := n.

(** What [main] shows on its clock. *)
Record clock_reading : Type := mkClock {
  clock_utc_time : Time;          (* utc_time *)
  clock_sunrise_utc : Time;       (* sunrise_time_utc, after the roll-back *)
  clock_seconds : Q;              (* seconds_since_sunrise *)
  clock_units : AncientTimeReading
}.

Section MainClock.

Variable sun_alt_degree : EarthLocation -> Time -> Q.

(** The core computations of [main] up to the ancient units, from the
    sidebar inputs and the time of day of the session clock.  The calls
    that come before the sunrise solver are represented by their
    outcomes, [None] standing for an exception: [location] for
    [to_earthlocation], [lst_hours] for [local_sidereal_time_hours] and
    [stars_df] for the star table, cached or computed.  The clock is
    reached when all three have returned; the sidereal time and the table
    do not enter it. *)
Definition main_clock (tz_offset : Q) (picked_date : date)
    (now_time : time_of_day)
    (location : option EarthLocation) (lst_hours : option Q)
    (stars_df : option (list star_row)) : option clock_reading :=
  let current_dt := datetime_combine picked_date now_time in
  let utc_time := time_from_local_localdt current_dt tz_offset in
  match location, lst_hours, stars_df with
  | Some location, Some _, Some _ =>
      match approximate_sunrise_utc_for_local_date sun_alt_degree
              (datetime_date current_dt) location tz_offset 10 with
      | None => None
      | Some sunrise_time_utc =>
          let s := total_seconds utc_time sunrise_time_utc in
          if ltb s 0 then
            match approximate_sunrise_utc_for_local_date sun_alt_degree
                    (datetime_date (current_dt - timedelta_days 1))
                    location tz_offset 10 with
            | None => None
            | Some prev =>
                let s' := total_seconds utc_time prev in
                Some (mkClock utc_time prev s' (ancient_units s'))
            end
          else Some (mkClock utc_time sunrise_time_utc s (ancient_units s))
      end
  | _, _, _ => None
  end.

(** [sunrise_local_dt]: the sunrise shown, on the local clock. *)
Definition sunrise_local_dt (c : clock_reading) (tz_offset : Q) : datetime :=
  clock_sunrise_utc c + timedelta_hours tz_offset.

End MainClock.

(** The hour angle shown with the transit time: [(lst - ra + 24) % 24],
    less 24 when above 12. *)
Definition hour_angle_now (lst_hours target_ra_h : Q) : Q :=
  let ha_now := fmod (lst_hours - target_ra_h + 24) 24 in
  if gtb ha_now 12 then ha_now - 24 else ha_now.

(** [stars_df[stars_df["name"] == sel_name].iloc[0]]: the first row of
    that name; [None] stands for the [IndexError] when there is none. *)
Definition select_star (stars_df : list star_row) (sel_name : string)
    : option star_row :=
  match filter (fun row => String.eqb (row_name row) sel_name) stars_df with
  | [] => None
  | row :: _ => Some row
  end.

(** *** The refresh bookkeeping of [main] *)

(** [st.session_state], for a table type [T]. *)
Record session (T : Type) : Type := mkSession {
  last_update : datetime;
  last_plot_update : datetime;
  current_time : datetime;
  plot_refresh_counter : Z;
  stars_df_cached : option T
}.

Arguments mkSession {T}.
Arguments last_update {T}.
Arguments last_plot_update {T}.
Arguments current_time {T}.
Arguments plot_refresh_counter {T}.
Arguments stars_df_cached {T}.

(** The clock tick at the top of [main], at wall-clock time [now]:
    the session afterwards and [plot_update_needed]. *)
Definition refresh_tick {T : Type} (now : datetime) (s : session T)
    : session T * bool :=
  let time_diff := total_seconds now (last_update s) in
  let s1 :=
    if geb time_diff 1
    then mkSession now (last_plot_update s) now
                   (plot_refresh_counter s + 1)%Z (stars_df_cached s)
    else s in
  let plot_update_needed := (1200 <=? plot_refresh_counter s1)%Z in
  let s2 :=
    if plot_update_needed
    then mkSession (last_update s1) now (current_time s1) 0%Z (stars_df_cached s1)
    else s1 in
  (s2, plot_update_needed).

(** The choice between the cached table and a fresh one, [compute]
    standing for the call of [compute_stars_positions_for_time] on the
    inputs of this run: the table shown and the session afterwards. *)
Definition refresh_stars {T : Type} (compute : T) (plot_update_needed : bool)
    (s : session T) : T * session T :=
  match negb plot_update_needed, stars_df_cached s with
  | true, Some cached => (cached, s)
  | _, _ =>
      (compute,
       mkSession (last_update s) (last_plot_update s) (current_time s)
                 (plot_refresh_counter s) (Some compute))
  end.

(** One run of [main]: tick, then table. *)
Definition main_run {T : Type} (now : datetime) (compute : T) (s : session T)
    : T * bool * session T :=
  let '(s1, needed) := refresh_tick now s in
  let '(shown, s2) := refresh_stars compute needed s1 in
  (shown, needed, s2).

(** Successive runs, each with its wall-clock time and the table its
    inputs would give: the tables shown, last run first, and the final
    session. *)
Fixpoint main_runs {T : Type} (runs : list (datetime * T)) (s : session T)
    : list (T * bool) * session T :=
  match runs with
  | [] => ([], s)
  | (now, compute) :: rest =>
      let '(shown, needed, s1) := main_run now compute s in
      let '(out, s2) := main_runs rest s1 in
      ((shown, needed) :: out, s2)
  end.

(** The session as the script initialises it before the first run of
    [main]: three successive readings of the clock, a counter of zero and
    no cached table. *)
Definition initial_session {T : Type} (t1 t2 t3 : datetime) : session T :=
  mkSession t1 t2 t3 0%Z None.

(** What the bookkeeping keeps, counted from an instant [since]: the
    counter stays below 1200, and it counts ticks that are a second apart
    or more, so the last tick is at least that many seconds after
    [since]. *)
Definition refresh_invariant {T : Type} (since : datetime) (s : session T) : Prop :=
  (0 <= plot_refresh_counter s < 1200)%Z /\
  since + inject_Z (plot_refresh_counter s) / 86400 <= last_update s.

(** A run a second after each of the previous ones, [n] of them, from
    one second after [start] on. *)
Definition every_second (start : datetime) (n : nat) : list (datetime * nat) :=
  map (fun k => (start + inject_Z (Z.of_nat k) / 86400, k)) (seq 1 n).

(** ** The plotted layers ([utils/plots.py]) *)

(** [plot_df]: the rows drawn. *)
Definition plot_rows (show_only_visible : bool) (stars_df : list star_row)
    : list star_row :=
  if show_only_visible then filter visible stars_df else stars_df.

Inductive marker_color : Type := yellow | lightsteelblue.

(** [np.clip(14 - mag, 4, 18)] *)
Definition marker_size (row : star_row) : Q := clip (14 - row_mag row) 4 18.

(** [np.where(alt_deg > 0, "yellow", "lightsteelblue")] *)
Definition marker_colour (row : star_row) : marker_color :=
  if gtb (alt_deg row) 0 then yellow else lightsteelblue.

(** [n if (m < 1.4 and a > 5) else ""] *)
Definition marker_text (row : star_row) : string :=
  if ltb (row_mag row) 1.4 && gtb (alt_deg row) 5 then row_name row else "".

Record marker : Type := mkMarker {
  marker_x : Q; marker_y : Q;
  marker_sz : Q; marker_col : marker_color; marker_label : string
}.

(** The star trace of [create_2d_altaz_chart]: azimuth against altitude.
    The axes of the chart are set to [0, 360] and [-90, 90]. *)
Definition stars_trace_2d (show_only_visible : bool) (stars_df : list star_row)
    : list marker :=
  map (fun row => mkMarker (az_deg row) (alt_deg row)
                    (marker_size row) (marker_colour row) (marker_text row))
      (plot_rows show_only_visible stars_df).

(** ** Geometry helpers ([utils/helpers.py]), over the reals

    The trigonometric helpers are embedded with real numbers in place of
    floats, [sin], [cos] and [PI] being those of the standard library. *)

Module Geometry.

Local Open Scope R_scope.

(** [np.radians] *)
Definition radians (deg : R) : R := deg * PI / 180.

(** East, North, Up. *)
Definition altaz_to_unit_vector (alt_deg az_deg : R) : R * R * R :=
  let alt := radians alt_deg in
  let az := radians az_deg in
  let x := cos alt * sin az in
  let y := cos alt * cos az in
  let z := sin alt in
  (x, y, z).

(** [np.linspace(start, stop, n)]: [n] evenly spaced values, both ends
    included; the one value is [start] when [n = 1]. *)
Definition linspace (start stop : R) (n : nat) : list R :=
  match n with
  | O => []
  | S O => [start]
  | _ => map (fun i => start + INR i * ((stop - start) / INR (n - 1))) (seq 0 n)
  end.

(** [ring_points_alt]: the altitude is a scalar, so [x] and [y] are arrays
    over the azimuths and [z] is a single value. *)
Definition ring_points_alt (alt_deg radius : R) (n : nat)
    : list R * list R * R :=
  let az := linspace 0 360 n in
  let x := map (fun a => fst (fst (altaz_to_unit_vector alt_deg a))) az in
  let y := map (fun a => snd (fst (altaz_to_unit_vector alt_deg a))) az in
  let z := snd (altaz_to_unit_vector alt_deg 0) in
  (map (fun v => v * radius) x, map (fun v => v * radius) y, z * radius).

(** [meridian_points_az]: both arguments are arrays over the altitudes. *)
Definition meridian_points_az (az_deg radius : R) (n : nat)
    : list R * list R * list R :=
  let alt := linspace 0 90 n in
  let x := map (fun a => fst (fst (altaz_to_unit_vector a az_deg))) alt in
  let y := map (fun a => snd (fst (altaz_to_unit_vector a az_deg))) alt in
  let z := map (fun a => snd (altaz_to_unit_vector a az_deg)) alt in
  (map (fun v => v * radius) x, map (fun v => v * radius) y,
   map (fun v => v * radius) z).

(** [make_dome_mesh]: after [np.meshgrid(theta, phi)] row [i] holds
    [phi_i] and column [j] holds [theta_j]. *)
Definition make_dome_mesh (radius : R) (n_theta n_phi : nat)
    : list (list R) * list (list R) * list (list R) :=
  let theta := linspace 0 (2 * PI) n_theta in
  let phi := linspace 0 (PI / 2) n_phi in
  let x := map (fun p => map (fun t => radius * sin p * sin t) theta) phi in
  let y := map (fun p => map (fun t => radius * sin p * cos t) theta) phi in
  let z := map (fun p => map (fun t => radius * cos p) theta) phi in
  (x, y, z).

(** The star points of [create_3d_planetarium]: the unit vectors of the
    rows drawn. *)
Definition stars_trace_3d (show_only_visible : bool) (stars_df : list star_row)
    : list (R * R * R) :=
  map (fun row => altaz_to_unit_vector (Q2R (alt_deg row)) (Q2R (az_deg row)))
      (plot_rows show_only_visible stars_df).

End Geometry.

(** ** The scalar expressions under rounding *)

(** What is asked of a rounding: it keeps the order, and it leaves the
    integers up to 2^53 as they are (they are binary64 values).  Overflow
    is not represented. *)
Definition rounding (rnd : Q -> Q) : Prop :=
  (forall x y, x <= y -> rnd x <= rnd y) /\
  (forall n : Z, (Z.abs n <= 2 ^ 53)%Z -> rnd (inject_Z n) == inject_Z n).

(** A rounding with two precisions: exact below 256 in absolute value, to
    the nearest integer from there on. *)
Definition round_from_256 (x : Q) : Q :=
  if leb 256 (Qabs x) then inject_Z (Qfloor (x + (1 # 2))) else x.

Module Rounded.

Section Expressions.

Variable rnd : Q -> Q.

(** Rounding towards zero. *)
Definition truncate (q : Q) : Z := if ltb q 0 then Qceiling q else Qfloor q.

(** C's [fmod]: the remainder takes the sign of [x], and is exact. *)
Definition fmod (x m : Q) : Q := x - m * inject_Z (truncate (x / m)).

(** Python's and numpy's float [%]: [fmod], to which the divisor is added
    when the signs differ; that addition is rounded. *)
Definition float_rem (vx wx : Q) : Q :=
  let r := fmod vx wx in
  if neqb r 0 then
    if Bool.eqb (ltb wx 0) (ltb r 0) then r else rnd (r + wx)
  else 0.

(** [(az - target_az_deg + 180) % 360 - 180] *)
Definition azimuth_wrap (az target_az_deg : Q) : Q :=
  rnd (float_rem (rnd (rnd (az - target_az_deg) + 180)) 360 - 180).

(** [(lst_val - target_lst_hours + 12) % 24 - 12] *)
Definition lst_residual (lst_val target_lst_hours : Q) : Q :=
  rnd (float_rem (rnd (rnd (lst_val - target_lst_hours) + 12)) 24 - 12).

(** [(target - a0) / (a1 - a0) if (a1 != a0) else 0.0] *)
Definition crossing_frac (a0 a1 : Q) : Q :=
  if neqb a1 a0 then rnd (rnd (target - a0) / rnd (a1 - a0)) else 0.

(** [times[i].jd + frac * (times[i + 1].jd - times[i].jd)] *)
Definition interpolate (t0 t1 a0 a1 : Q) : Q :=
  rnd (t0 + rnd (crossing_frac a0 a1 * rnd (t1 - t0))).

End Expressions.

End Rounded.

(** ** The scalar expressions on binary64 values *)

Module Binary64.

#[local] Set Warnings "-inexact-float".

Local Open Scope float_scope.

(** C's [fmod]: the exact remainder of the magnitudes, with the sign of
    [x]; it is [x] itself for a zero [x] and for an infinite [y], and
    [nan] for a zero [y], an infinite [x] or a [nan]. *)
Definition fmod (x y : PrimFloat.float) : PrimFloat.float :=
  match Prim2SF x, Prim2SF y with
  | S754_finite sx mx ex, S754_finite _ my ey =>
      let e := Z.min ex ey in
      let r := Z.rem (Z.pos mx * 2 ^ (ex - e)) (Z.pos my * 2 ^ (ey - e)) in
      match r with
      | Z.pos p => SF2Prim (S754_finite sx p e)
      | _ => if sx then neg_zero else zero
      end
  | S754_zero _, S754_finite _ _ _ => x
  | S754_zero _, S754_infinity _ => x
  | S754_finite _ _ _, S754_infinity _ => x
  | _, _ => nan
  end.

(** Python's and numpy's float [%], for a divisor that is not zero. *)
Definition float_rem (vx wx : PrimFloat.float) : PrimFloat.float :=
  let r := fmod vx wx in
  if is_zero r then (if wx <? 0 then neg_zero else zero)
  else if Bool.eqb (wx <? 0) (r <? 0) then r else r + wx.

(** [(az - target_az_deg + 180) % 360 - 180] *)
Definition azimuth_wrap (az target_az_deg : PrimFloat.float)
    : PrimFloat.float :=
  float_rem (az - target_az_deg + 180) 360 - 180.

(** [(lst_val - target_lst_hours + 12) % 24 - 12] *)
Definition lst_residual (lst_val target_lst_hours : PrimFloat.float)
    : PrimFloat.float :=
  float_rem (lst_val - target_lst_hours + 12) 24 - 12.

(** [target = -0.833], the binary64 value nearest to it. *)
Definition target : PrimFloat.float := -0.833.

(** [(target - a0) / (a1 - a0) if (a1 != a0) else 0.0] *)
Definition crossing_frac (a0 a1 : PrimFloat.float) : PrimFloat.float :=
  if negb (a1 =? a0) then (target - a0) / (a1 - a0) else 0.

(** [times[i].jd + frac * (times[i + 1].jd - times[i].jd)] *)
Definition interpolate (t0 t1 a0 a1 : PrimFloat.float) : PrimFloat.float :=
  t0 + crossing_frac a0 a1 * (t1 - t0).

(** One round of the ternary search, and [n] rounds. *)
Definition ternary_step (err : PrimFloat.float -> PrimFloat.float)
    (ab : PrimFloat.float * PrimFloat.float)
    : PrimFloat.float * PrimFloat.float :=
  let a := fst ab in
  let b := snd ab in
  let m1 := a + (b - a) / 3 in
  let m2 := a + 2 * (b - a) / 3 in
  let f1 := err m1 in
  let f2 := err m2 in
  if f1 <? f2 then (a, m2) else (m1, b).

Fixpoint ternary (err : PrimFloat.float -> PrimFloat.float) (n : nat)
    (ab : PrimFloat.float * PrimFloat.float)
    : PrimFloat.float * PrimFloat.float :=
  match n with
  | O => ab
  | S n' => ternary err n' (ternary_step err ab)
  end.

(** The binary64 values next above 180 and above 13: 180 + 2^-45, written
    [180.00000000000003], and 13 + 2^-49, written [13.000000000000002]. *)
Definition just_above_180 : PrimFloat.float := 0x1.6800000000001p+7.
Definition just_above_13 : PrimFloat.float := 0x1.a000000000001p+3.

(** Julian Dates: 00:00 and 00:10 UTC of 2024-01-01; 00:00 and 00:10 of
    the same date on the Kolkata clock (18:30 and 18:40 UTC of the day
    before); the ends of the 24 hour window around 00:30 UTC of
    2024-01-01. *)
Definition jd_utc_midnight : PrimFloat.float := 2460310.5.
Definition jd_utc_0010 : PrimFloat.float := 2460310.5069444445.
Definition jd_kolkata_midnight : PrimFloat.float := 2460310.2708333335.
Definition jd_kolkata_0010 : PrimFloat.float := 2460310.277777778.
Definition jd_window_left : PrimFloat.float := 2460310.0208333335.
Definition jd_window_right : PrimFloat.float := 2460311.0208333335.

(** Solar altitudes on either side of -0.833 degrees. *)
Definition alt_below_a : PrimFloat.float := -0.83300001.
Definition alt_above_a : PrimFloat.float := 1.2.
Definition alt_below_b : PrimFloat.float := -0.8330001.
Definition alt_above_b : PrimFloat.float := 2.5.

(** The distance to the Julian Date 2460310.6, an error with a single
    minimum. *)
Definition distance_to_best (jd_val : PrimFloat.float) : PrimFloat.float :=
  abs (jd_val - 2460310.6).

End Binary64.

(** ** The assumption of the ternary search *)

(** [err] has a single minimum on [a, b], at [x_min]: it decreases
    strictly up to [x_min] and increases strictly from there on. *)
Definition unimodal_on (err : Q -> Q) (a b x_min : Q) : Prop :=
  (a <= x_min /\ x_min <= b) /\
  (forall x y, a <= x -> x < y -> y <= x_min -> err y < err x) /\
  (forall x y, x_min <= x -> x < y -> y <= b -> err x < err y).

(** A star whose altitude in degrees is the Julian Date counted from
    2460310 and whose azimuth stays at 120 degrees, and the sum of
    absolute values in place of [hypot]: stand-ins with a single best
    instant for each target altitude. *)
Definition rising_altaz (loc : EarthLocation) (t : Time) (ra_h dec_deg : Q) : Q * Q :=
  (t - 2460310, 120).

Definition taxicab_hypot (x y : Q) : Q := Qabs x + Qabs y.

(** * Properties *)

(** ** Arithmetic of the float model *)

(** Division by a numeral is multiplication by its inverse, a numeral: this
    puts time offsets such as [m / 1440] in the linear fragment. *)
Ltac qinv_consts :=
  unfold Qdiv in *;
  repeat match goal with
  | |- context [ / (?n # ?d) ] =>
      let c := eval cbv in (/ (n # d)) in change (/ (n # d)) with c
  | H : context [ / (?n # ?d) ] |- _ =>
      let c := eval cbv in (/ (n # d)) in change (/ (n # d)) with c in H
  end.

Ltac qlin := qinv_consts; lra.

Lemma fmod_range (x m : Q) : 0 < m -> 0 <= fmod x m /\ fmod x m < m.
Proof.
  intros Hm. unfold fmod.
  pose proof (Qfloor_le (x / m)) as Hlo.
  pose proof (Qlt_floor (x / m)) as Hhi.
  rewrite inject_Z_plus in Hhi.
  assert (Hx : x == (x / m) * m) by (field; lra).
  set (q := x / m) in *. set (k := inject_Z (Qfloor q)) in *.
  change (inject_Z 1) with 1 in Hhi.
  split; nra.
Qed.

Lemma ltb_lt (x y : Q) : ltb x y = true <-> x < y.
Proof.
  unfold ltb. rewrite negb_true_iff, <- not_true_iff_false, Qle_bool_iff.
  split; intros H; lra.
Qed.

Lemma ltb_ge (x y : Q) : ltb x y = false <-> y <= x.
Proof.
  unfold ltb. rewrite negb_false_iff, Qle_bool_iff. reflexivity.
Qed.

Lemma gtb_gt (x y : Q) : gtb x y = true <-> y < x.
Proof. apply (ltb_lt y x). Qed.

Lemma gtb_le (x y : Q) : gtb x y = false <-> x <= y.
Proof. apply (ltb_ge y x). Qed.

Lemma leb_le (x y : Q) : leb x y = true <-> x <= y.
Proof. apply Qle_bool_iff. Qed.

Lemma leb_gt (x y : Q) : leb x y = false <-> y < x.
Proof.
  unfold leb. rewrite <- not_true_iff_false, Qle_bool_iff.
  split; intros H; lra.
Qed.

Lemma geb_ge (x y : Q) : geb x y = true <-> y <= x.
Proof. apply Qle_bool_iff. Qed.

Lemma neqb_neq (x y : Q) : neqb x y = true <-> ~ x == y.
Proof.
  unfold neqb. rewrite negb_true_iff, <- not_true_iff_false, Qeq_bool_iff.
  reflexivity.
Qed.

Lemma float_eq (x : Q) : float x == x.
Proof. apply Qred_correct. Qed.

Lemma clip_range (x lower upper : Q) :
  lower <= upper -> lower <= clip x lower upper /\ clip x lower upper <= upper.
Proof.
  intros Hlu. unfold clip.
  destruct (ltb x lower) eqn:E1.
  - lra.
  - apply ltb_ge in E1. destruct (gtb x upper) eqn:E2.
    + lra.
    + apply gtb_le in E2. lra.
Qed.

(** Clipping at bounds on both sides of zero keeps the sign test. *)
Lemma clip_pos_iff (x lower upper : Q) :
  lower <= 0 -> 0 < upper -> (0 < clip x lower upper <-> 0 < x).
Proof.
  intros Hl Hu. unfold clip.
  destruct (ltb x lower) eqn:E1.
  - apply ltb_lt in E1. split; lra.
  - destruct (gtb x upper) eqn:E2.
    + apply gtb_gt in E2. split; lra.
    + reflexivity.
Qed.

(** ** Arithmetic under rounding *)

Lemma Qabs_cases (x : Q) :
  (0 <= x /\ Qabs x == x) \/ (x <= 0 /\ Qabs x == - x).
Proof.
  destruct (Qlt_le_dec x 0) as [H | H].
  - right. split; [lra | apply Qabs_neg; lra].
  - left. split; [exact H | now apply Qabs_pos].
Qed.

Lemma Qfloor_half_integer (n : Z) : Qfloor (inject_Z n + (1 # 2)) = n.
Proof.
  pose proof (Qfloor_le (inject_Z n + (1 # 2))) as F1.
  pose proof (Qlt_floor (inject_Z n + (1 # 2))) as F2.
  rewrite inject_Z_plus in F2. change (inject_Z 1) with 1 in F2.
  set (k := Qfloor (inject_Z n + (1 # 2))) in *.
  assert (A : inject_Z k < inject_Z n + 1) by lra.
  assert (B : inject_Z n < inject_Z k + 1) by lra.
  unfold Qlt, Qplus, inject_Z in A, B; simpl in A, B. lia.
Qed.

Lemma rounding_monotone (rnd : Q -> Q) (x y : Q) :
  rounding rnd -> x <= y -> rnd x <= rnd y.
Proof. intros [Hm _]. apply Hm. Qed.

Lemma rounding_integer (rnd : Q -> Q) (n : Z) :
  rounding rnd -> (Z.abs n <= 2 ^ 53)%Z -> rnd (inject_Z n) == inject_Z n.
Proof. intros [_ Hi]. apply Hi. Qed.

(** A rounded value lies between the integers that enclose the exact
    one. *)
Lemma rounding_between (rnd : Q -> Q) (lo hi : Z) (x : Q) :
  rounding rnd ->
  (Z.abs lo <= 2 ^ 53)%Z -> (Z.abs hi <= 2 ^ 53)%Z ->
  inject_Z lo <= x -> x <= inject_Z hi ->
  inject_Z lo <= rnd x /\ rnd x <= inject_Z hi.
Proof.
  intros Hr Hlo Hhi H1 H2.
  pose proof (rounding_monotone rnd _ _ Hr H1) as A.
  pose proof (rounding_monotone rnd _ _ Hr H2) as B.
  rewrite (rounding_integer rnd lo Hr Hlo) in A.
  rewrite (rounding_integer rnd hi Hr Hhi) in B.
  now split.
Qed.

Lemma identity_rounding : rounding (fun x => x).
Proof. split; [intros x y H; exact H | intros n _; reflexivity]. Qed.

Lemma round_from_256_rounding : rounding round_from_256.
Proof.
  split.
  - intros x y Hxy. unfold round_from_256.
    assert (Hfl : inject_Z (Qfloor (x + (1 # 2))) <= inject_Z (Qfloor (y + (1 # 2)))).
    { rewrite <- Zle_Qle. apply Qfloor_resp_le. lra. }
    destruct (leb 256 (Qabs x)) eqn:Ex; destruct (leb 256 (Qabs y)) eqn:Ey;
      try apply leb_le in Ex; try apply leb_le in Ey;
      try apply leb_gt in Ex; try apply leb_gt in Ey.
    + exact Hfl.
    + assert (Hx : x <= -256)
        by (destruct (Qabs_cases x) as [[? ?] | [? ?]];
            destruct (Qabs_cases y) as [[? ?] | [? ?]]; lra).
      assert (Hy : -256 < y) by (destruct (Qabs_cases y) as [[? ?] | [? ?]]; lra).
      assert (H : (Qfloor (x + (1 # 2)) <= -256)%Z).
      { rewrite <- (Qfloor_half_integer (-256)). apply Qfloor_resp_le.
        change (inject_Z (-256)) with (-256). lra. }
      rewrite Zle_Qle in H. change (inject_Z (-256)) with (-256) in H. lra.
    + assert (Hy : 256 <= y)
        by (destruct (Qabs_cases x) as [[? ?] | [? ?]];
            destruct (Qabs_cases y) as [[? ?] | [? ?]]; lra).
      assert (Hx : x < 256) by (destruct (Qabs_cases x) as [[? ?] | [? ?]]; lra).
      assert (H : (256 <= Qfloor (y + (1 # 2)))%Z).
      { rewrite <- (Qfloor_half_integer 256) at 1. apply Qfloor_resp_le.
        change (inject_Z 256) with 256. lra. }
      rewrite Zle_Qle in H. change (inject_Z 256) with 256 in H. lra.
    + exact Hxy.
  - intros n _. unfold round_from_256.
    destruct (leb 256 (Qabs (inject_Z n))); [| reflexivity].
    now rewrite Qfloor_half_integer.
Qed.

(** The remainder of C's [fmod] by a positive divisor: smaller than the
    divisor in absolute value, with the sign of the dividend. *)
Lemma c_fmod_range (x m : Q) :
  0 < m ->
  (0 <= x -> 0 <= Rounded.fmod x m /\ Rounded.fmod x m < m) /\
  (x <= 0 -> - m < Rounded.fmod x m /\ Rounded.fmod x m <= 0).
Proof.
  intros Hm. unfold Rounded.fmod, Rounded.truncate.
  assert (Hx : x == (x / m) * m) by (field; lra).
  pose proof (Qfloor_le (x / m)) as F1.
  pose proof (Qlt_floor (x / m)) as F2.
  pose proof (Qle_ceiling (x / m)) as C1.
  pose proof (Qceiling_lt (x / m)) as C2.
  rewrite inject_Z_plus in F2. change (inject_Z 1) with 1 in F2.
  unfold Z.sub in C2. rewrite inject_Z_plus in C2. cbn [Z.opp] in C2.
  change (inject_Z (-1)) with (-1) in C2.
  set (q := x / m) in *.
  assert (Hq0 : 0 <= x -> 0 <= q) by (intros; unfold q; apply Qle_shift_div_l; lra).
  assert (Hq1 : x <= 0 -> q <= 0) by (intros; unfold q; apply Qle_shift_div_r; lra).
  destruct (ltb q 0) eqn:E; [apply ltb_lt in E | apply ltb_ge in E].
  - set (k := inject_Z (Qceiling q)) in *. split.
    + intros H. specialize (Hq0 H). lra.
    + intros _.
      assert (A : 0 <= m * (k - q)) by (apply Qmult_le_0_compat; lra).
      assert (B : 0 < m * (q + 1 - k)) by (apply Qmult_lt_0_compat; lra).
      split; lra.
  - set (k := inject_Z (Qfloor q)) in *.
    assert (A : 0 <= m * (q - k)) by (apply Qmult_le_0_compat; lra).
    assert (B : 0 < m * (k + 1 - q)) by (apply Qmult_lt_0_compat; lra).
    split.
    + intros _. split; lra.
    + intros H. specialize (Hq1 H).
      assert (Hz : q == 0) by lra.
      assert (Hk : k == 0).
      { unfold k. rewrite Hz. reflexivity. }
      rewrite Hk, Hz in *. split; lra.
Qed.

(** Under a rounding the float remainder by a positive integer divisor
    lies in the closed interval from 0 to the divisor. *)
Lemma float_rem_range (rnd : Q -> Q) (x : Q) (n : Z) :
  rounding rnd -> (0 < n <= 2 ^ 53)%Z ->
  0 <= Rounded.float_rem rnd x (inject_Z n) /\
  Rounded.float_rem rnd x (inject_Z n) <= inject_Z n.
Proof.
  intros Hr Hn.
  assert (Hm : 0 < inject_Z n)
    by (change 0 with (inject_Z 0); rewrite <- Zlt_Qlt; lia).
  destruct (c_fmod_range x (inject_Z n) Hm) as [Hpos Hneg].
  unfold Rounded.float_rem. cbv zeta.
  set (r := Rounded.fmod x (inject_Z n)) in *.
  destruct (neqb r 0) eqn:E0; [| split; lra].
  assert (Em : ltb (inject_Z n) 0 = false) by (apply ltb_ge; lra).
  rewrite Em.
  destruct (ltb r 0) eqn:Er; cbn [Bool.eqb].
  - apply ltb_lt in Er.
    assert (Hx : x <= 0).
    { destruct (Qlt_le_dec 0 x) as [H | H]; [| exact H].
      destruct (Hpos ltac:(lra)). lra. }
    destruct (Hneg Hx) as [A B].
    change 0 with (inject_Z 0).
    apply rounding_between; try assumption; try lia.
    + change (inject_Z 0) with 0. lra.
    + lra.
  - apply ltb_ge in Er.
    assert (Hx : 0 <= x).
    { destruct (Qlt_le_dec x 0) as [H | H]; [| exact H].
      destruct (Hneg ltac:(lra)) as [A B]. apply neqb_neq in E0.
      exfalso. apply E0. lra. }
    destruct (Hpos Hx). split; lra.
Qed.

Lemma azimuth_wrap_rounded_bounds (rnd : Q -> Q) (az target_az_deg : Q) :
  rounding rnd ->
  -180 <= Rounded.azimuth_wrap rnd az target_az_deg /\
  Rounded.azimuth_wrap rnd az target_az_deg <= 180.
Proof.
  intros Hr. unfold Rounded.azimuth_wrap.
  destruct (float_rem_range rnd (rnd (rnd (az - target_az_deg) + 180)) 360 Hr
              ltac:(lia)) as [A B].
  change (inject_Z 360) with 360 in A, B.
  change (-180) with (inject_Z (-180)). change 180 with (inject_Z 180) at 2.
  apply rounding_between; try assumption; try lia.
  - change (inject_Z (-180)) with (-180). lra.
  - change (inject_Z 180) with 180. lra.
Qed.

Lemma lst_residual_rounded_bounds (rnd : Q -> Q) (lst_val target_lst_hours : Q) :
  rounding rnd ->
  -12 <= Rounded.lst_residual rnd lst_val target_lst_hours /\
  Rounded.lst_residual rnd lst_val target_lst_hours <= 12.
Proof.
  intros Hr. unfold Rounded.lst_residual.
  destruct (float_rem_range rnd (rnd (rnd (lst_val - target_lst_hours) + 12)) 24 Hr
              ltac:(lia)) as [A B].
  change (inject_Z 24) with 24 in A, B.
  change (-12) with (inject_Z (-12)). change 12 with (inject_Z 12) at 2.
  apply rounding_between; try assumption; try lia.
  - change (inject_Z (-12)) with (-12). lra.
  - change (inject_Z 12) with 12. lra.
Qed.

(** Without rounding the float remainder is the floor remainder of the
    exact model. *)
Lemma float_rem_exact (x m : Q) :
  0 < m -> Rounded.float_rem (fun v => v) x m == fmod x m.
Proof.
  intros Hm.
  destruct (fmod_range x m Hm) as [P0 P1].
  destruct (c_fmod_range x m Hm) as [Hpos Hneg].
  unfold Rounded.float_rem. cbv zeta.
  assert (Em : ltb m 0 = false) by (apply ltb_ge; lra).
  rewrite Em.
  assert (Hrel : Rounded.fmod x m == fmod x m \/
                 Rounded.fmod x m == fmod x m - m).
  { unfold Rounded.fmod, fmod, Rounded.truncate.
    pose proof (Qfloor_le (x / m)) as F1.
    pose proof (Qlt_floor (x / m)) as F2.
    pose proof (Qle_ceiling (x / m)) as C1.
    pose proof (Qceiling_lt (x / m)) as C2.
    rewrite inject_Z_plus in F2. change (inject_Z 1) with 1 in F2.
    unfold Z.sub in C2. rewrite inject_Z_plus in C2. cbn [Z.opp] in C2.
    change (inject_Z (-1)) with (-1) in C2.
    destruct (ltb (x / m) 0); [| left; reflexivity].
    set (q := x / m) in *.
    assert (A : inject_Z (Qfloor q) <= inject_Z (Qceiling q)) by lra.
    assert (B : inject_Z (Qceiling q) < inject_Z (Qfloor q + 2)).
    { rewrite inject_Z_plus. change (inject_Z 2) with 2. lra. }
    rewrite <- Zle_Qle in A. rewrite <- Zlt_Qlt in B.
    assert (Hc : Qceiling q = Qfloor q \/ Qceiling q = (Qfloor q + 1)%Z) by lia.
    destruct Hc as [-> | ->]; [left; reflexivity | right].
    rewrite inject_Z_plus. change (inject_Z 1) with 1. ring. }
  set (r := Rounded.fmod x m) in *.
  destruct (neqb r 0) eqn:E0.
  - apply neqb_neq in E0.
    destruct (ltb r 0) eqn:Er; cbn [Bool.eqb].
    + apply ltb_lt in Er. destruct Hrel as [H | H]; lra.
    + apply ltb_ge in Er. destruct Hrel as [H | H]; [exact H |].
      exfalso. lra.
  - assert (Hr : r == 0).
    { unfold neqb in E0. apply negb_false_iff in E0.
      now apply Qeq_bool_iff in E0. }
    destruct Hrel as [H | H]; lra.
Qed.

Lemma azimuth_wrap_rounded_exact (az target_az_deg : Q) :
  Rounded.azimuth_wrap (fun v => v) az target_az_deg
  == azimuth_wrap az target_az_deg.
Proof.
  unfold Rounded.azimuth_wrap, azimuth_wrap.
  rewrite float_rem_exact by reflexivity. reflexivity.
Qed.

(** With the two-precision rounding the wrap reaches 180: the remainder
    of -1/4 by 360 is 359.75, which rounds to 360. *)
Lemma azimuth_wrap_rounded_reaches_180 :
  Rounded.azimuth_wrap round_from_256 0 180.25 == 180.
Proof. vm_compute. reflexivity. Qed.

Lemma lst_residual_rounded_exact (lst_val target_lst_hours : Q) :
  Rounded.lst_residual (fun v => v) lst_val target_lst_hours
  == fmod (lst_val - target_lst_hours + 12) 24 - 12.
Proof.
  unfold Rounded.lst_residual.
  rewrite float_rem_exact by reflexivity. reflexivity.
Qed.

(** Under a rounding the crossing fraction stays in [0, 1] and the
    interpolated Julian Date is not before the earlier sample. *)
Lemma interpolate_rounded_lower (rnd : Q -> Q) (t0 t1 a0 a1 : Q) :
  rounding rnd -> rnd t0 == t0 -> t0 <= t1 ->
  a0 < target -> target <= a1 ->
  (0 <= Rounded.crossing_frac rnd a0 a1 /\
   Rounded.crossing_frac rnd a0 a1 <= 1) /\
  t0 <= Rounded.interpolate rnd t0 t1 a0 a1.
Proof.
  intros Hr Ht0 Ht H0 H1.
  assert (R0 : rnd 0 == 0) by (apply (rounding_integer rnd 0 Hr); lia).
  assert (R1 : rnd 1 == 1) by (apply (rounding_integer rnd 1 Hr); lia).
  assert (Hn : 0 <= rnd (target - a0)).
  { rewrite <- R0. apply rounding_monotone; [assumption | lra]. }
  assert (Hnd : rnd (target - a0) <= rnd (a1 - a0))
    by (apply rounding_monotone; [assumption | lra]).
  assert (Hfrac : 0 <= Rounded.crossing_frac rnd a0 a1 /\
                  Rounded.crossing_frac rnd a0 a1 <= 1).
  { unfold Rounded.crossing_frac.
    assert (En : neqb a1 a0 = true) by (apply neqb_neq; lra).
    rewrite En.
    set (n := rnd (target - a0)) in *. set (d := rnd (a1 - a0)) in *.
    assert (Hq : 0 <= n / d /\ n / d <= 1).
    { destruct (Qlt_le_dec 0 d) as [Hd | Hd].
      - split; [apply Qle_shift_div_l; lra | apply Qle_shift_div_r; lra].
      - assert (Ed : d == 0) by lra.
        assert (E : n / d == 0)
          by (unfold Qdiv; rewrite Ed; change (/ 0) with 0; ring).
        rewrite E. split; lra. }
    destruct Hq as [Q0 Q1].
    split.
    - rewrite <- R0. now apply rounding_monotone.
    - rewrite <- R1. now apply rounding_monotone. }
  split; [exact Hfrac |].
  destruct Hfrac as [F0 F1].
  unfold Rounded.interpolate.
  set (frac := Rounded.crossing_frac rnd a0 a1) in *.
  assert (Hd : 0 <= rnd (t1 - t0)).
  { rewrite <- R0. apply rounding_monotone; [assumption | lra]. }
  assert (Hp : 0 <= rnd (frac * rnd (t1 - t0))).
  { rewrite <- R0. apply rounding_monotone; [assumption |].
    apply Qmult_le_0_compat; assumption. }
  rewrite <- Ht0 at 1. apply rounding_monotone; [assumption | lra].
Qed.

(** ** Ancient units *)

(** C7: the ancient units are plain arithmetic on the elapsed seconds [s]:
    ghati = s / 1440, muhurta = ghati / 2, yama = ghati / 7.5; at s = 1440
    they are 1, 1/2 and 2/15 = 0.1333..., at s = 0 all three are zero. *)
Theorem ancient_units_arithmetic :
  (forall s : Q,
     ghati (ancient_units s) == s / 1440 /\
     muhurta (ancient_units s) == ghati (ancient_units s) / 2 /\
     yama (ancient_units s) == ghati (ancient_units s) / 7.5) /\
  (ghati (ancient_units 1440) == 1 /\
   muhurta (ancient_units 1440) == 0.5 /\
   yama (ancient_units 1440) == 2 / 15 /\
   0.1333 < yama (ancient_units 1440) < 0.1334) /\
  (ghati (ancient_units 0) == 0 /\
   muhurta (ancient_units 0) == 0 /\
   yama (ancient_units 0) == 0).
Proof.
  split; [| split].
  - intros s. unfold ancient_units, ghati_sec; simpl.
    repeat split; try reflexivity. field.
  - vm_compute. repeat split; congruence.
  - vm_compute. repeat split.
Qed.

(** ** The azimuth wrap of the inversion solver *)

(** C8, as the code has it: for every azimuth and target azimuth the
    wrapped difference [(az - target + 180) % 360 - 180] lies in the
    closed interval [-180, 180], in exact arithmetic and under every
    rounding of the operations. *)
Theorem azimuth_wrap_range (az target_az_deg : Q) :
  (-180 <= azimuth_wrap az target_az_deg /\
   azimuth_wrap az target_az_deg <= 180) /\
  (forall rnd : Q -> Q, rounding rnd ->
     -180 <= Rounded.azimuth_wrap rnd az target_az_deg /\
     Rounded.azimuth_wrap rnd az target_az_deg <= 180).
Proof.
  split.
  - unfold azimuth_wrap.
    destruct (fmod_range (az - target_az_deg + 180) 360) as [Hlo Hhi]; lra.
  - intros rnd Hr. now apply azimuth_wrap_rounded_bounds.
Qed.

(** The upper end is reached: with the two-precision rounding, for the
    azimuth 0 and the target 180.25. *)
Lemma azimuth_wrap_range_witness :
  rounding round_from_256 /\
  Rounded.azimuth_wrap round_from_256 0 180.25 == 180 /\
  -180 <= Rounded.azimuth_wrap round_from_256 0 180.25 /\
  Rounded.azimuth_wrap round_from_256 0 180.25 <= 180.
Proof.
  split; [exact round_from_256_rounding |].
  split; [exact azimuth_wrap_rounded_reaches_180 |].
  apply (azimuth_wrap_range 0 180.25). exact round_from_256_rounding.
Defined.

(** C8 as stated fails on binary64 values: for the azimuth 0.0 and the
    target 180.00000000000003 the sum [az - target + 180] is -2^-45, its
    remainder by 360 rounds to 360.0, and the wrapped difference is 180.0,
    which is not below 180. *)
Lemma azimuth_wrap_reaches_180 :
  Binary64.azimuth_wrap 0 Binary64.just_above_180 = 180%float /\
  PrimFloat.ltb (Binary64.azimuth_wrap 0 Binary64.just_above_180) 180 = false.
Proof. split; vm_compute; reflexivity. Qed.

Lemma azimuth_wrap_bounds (az target_az_deg : Q) :
  -180 <= azimuth_wrap az target_az_deg /\ azimuth_wrap az target_az_deg < 180.
Proof.
  unfold azimuth_wrap.
  destruct (fmod_range (az - target_az_deg + 180) 360) as [Hlo Hhi]; lra.
Qed.

(** The wrap only removes whole turns. *)
Lemma azimuth_wrap_turns (az target_az_deg : Q) :
  exists k : Z, azimuth_wrap az target_az_deg == az - target_az_deg - 360 * inject_Z k.
Proof.
  unfold azimuth_wrap, fmod.
  exists (Qfloor ((az - target_az_deg + 180) / 360)). ring.
Qed.

(** The elapsed seconds handed to the unit arithmetic are counted from
    today's sunrise, or from yesterday's when today's is still ahead. *)
Lemma seconds_since_sunrise_cases
    (sun_alt_degree : EarthLocation -> Time -> Q)
    (current_date : date) (utc_time : Time) (location : EarthLocation)
    (tz_offset s : Q) :
  seconds_since_sunrise sun_alt_degree current_date utc_time location tz_offset
  = Some s ->
  exists today,
    approximate_sunrise_utc_for_local_date sun_alt_degree
      current_date location tz_offset 10 = Some today /\
    ((0 <= total_seconds utc_time today /\ s = total_seconds utc_time today) \/
     (total_seconds utc_time today < 0 /\
      exists prev,
        approximate_sunrise_utc_for_local_date sun_alt_degree
          (current_date - 1)%Z location tz_offset 10 = Some prev /\
        s = total_seconds utc_time prev)).
Proof.
  unfold seconds_since_sunrise.
  destruct (approximate_sunrise_utc_for_local_date sun_alt_degree
              current_date location tz_offset 10) as [today |]; [| discriminate].
  destruct (ltb (total_seconds utc_time today) 0) eqn:E.
  - apply ltb_lt in E.
    destruct (approximate_sunrise_utc_for_local_date sun_alt_degree
                (current_date - 1)%Z location tz_offset 10) as [prev |];
      [| discriminate].
    intros H; injection H as <-.
    exists today. split; [reflexivity |]. right. split; [exact E |].
    exists prev. split; reflexivity.
  - apply ltb_ge in E. intros H; injection H as <-.
    exists today. split; [reflexivity |]. left. split; [exact E | reflexivity].
Qed.

(** ** Per-star horizontal positions *)

Section StarPositions.

Variable transform_to_altaz : EarthLocation -> Time -> Q -> Q -> Q * Q.

Lemma row_of_star_position t loc r :
  row_of transform_to_altaz t loc r (clip_alt (normalize_az (star_position transform_to_altaz t loc r))).
Proof. unfold row_of; simpl. repeat split. Qed.

Lemma rows_of_catalog t loc stars :
  Forall2 (row_of transform_to_altaz t loc) stars
    (map clip_alt (map normalize_az (map (star_position transform_to_altaz t loc) stars))).
Proof.
  induction stars as [| r stars IH]; simpl.
  - constructor.
  - constructor; [apply row_of_star_position | exact IH].
Qed.

Lemma compute_stars_positions_some t loc stars rows :
  compute_stars_positions_for_time transform_to_altaz t loc stars = Some rows ->
  stars <> [] /\
  rows = map clip_alt (map normalize_az (map (star_position transform_to_altaz t loc) stars)).
Proof.
  unfold compute_stars_positions_for_time.
  destruct stars as [| r stars]; simpl; [discriminate |].
  intros H; injection H as <-. split; [discriminate | reflexivity].
Qed.

(** C6: every row of the table returned for a catalog, a location and an
    instant is well-formed: the azimuth lies in [0, 360), the altitude in
    [-90, 90], and the visibility flag is true exactly when the altitude
    given by the transform, before clipping, is strictly positive. *)
Theorem star_positions_well_formed t loc stars rows :
  compute_stars_positions_for_time transform_to_altaz t loc stars = Some rows ->
  Forall2 (fun r row =>
             (0 <= az_deg row /\ az_deg row < 360) /\
             (-90 <= alt_deg row /\ alt_deg row <= 90) /\
             (visible row = true <->
              0 < fst (transform_to_altaz loc t (ra_h r) (dec_deg r))))
          stars rows.
Proof.
  intros H. apply compute_stars_positions_some in H as [_ ->].
  eapply Forall2_impl; [| apply rows_of_catalog].
  intros r row (_ & Halt & Haz & Hvis).
  rewrite Halt, Haz, Hvis. split; [| split].
  - apply fmod_range. lra.
  - apply clip_range. lra.
  - apply gtb_gt.
Qed.

End StarPositions.

(** ** The sunrise solver *)

Lemma range_length (n : Z) : List.length (range n) = Z.to_nat n.
Proof. unfold range. now rewrite length_map, length_seq. Qed.

Lemma range_nth (n : Z) (i : nat) :
  (i < Z.to_nat n)%nat -> nth i (range n) 0%Z = Z.of_nat i.
Proof.
  intros Hi. unfold range.
  change 0%Z with (Z.of_nat 0). rewrite map_nth, seq_nth by assumption.
  reflexivity.
Qed.

Lemma n_steps_pos (step_minutes : Z) :
  (0 < step_minutes)%Z ->
  Z.to_nat (n_steps step_minutes) = S (Z.to_nat (1440 / step_minutes)).
Proof.
  intros Hs. unfold n_steps, minutes_in_day. change (24 * 60)%Z with 1440%Z.
  assert (0 <= 1440 / step_minutes)%Z by (apply Z.div_pos; lia).
  lia.
Qed.

Lemma times_list_length (start : datetime) (step_minutes : Z) :
  List.length (times_list start step_minutes) = Z.to_nat (n_steps step_minutes).
Proof. unfold times_list. now rewrite length_map, range_length. Qed.

Lemma times_list_nth (start : datetime) (step_minutes : Z) (i : nat) :
  (i < Z.to_nat (n_steps step_minutes))%nat ->
  nth i (times_list start step_minutes) 0
  = start + timedelta_minutes (inject_Z (step_minutes * Z.of_nat i)).
Proof.
  intros Hi. unfold times_list.
  set (f := fun i : Z => start + timedelta_minutes (inject_Z (step_minutes * i))).
  rewrite (nth_indep _ 0 (f 0%Z)) by now rewrite length_map, range_length.
  rewrite map_nth, range_nth by assumption. reflexivity.
Qed.

Lemma inject_Z_lt (a b : Z) : (a < b)%Z -> inject_Z a < inject_Z b.
Proof. intros H. unfold Qlt; simpl. lia. Qed.

Lemma inject_Z_le (a b : Z) : (a <= b)%Z -> inject_Z a <= inject_Z b.
Proof. intros H. unfold Qle; simpl. lia. Qed.

(** Consecutive sample times are a step apart, the later one after. *)
Lemma times_list_increasing (start : datetime) (step_minutes : Z) (i : nat) :
  (0 < step_minutes)%Z ->
  (S i < Z.to_nat (n_steps step_minutes))%nat ->
  nth i (times_list start step_minutes) 0 < nth (S i) (times_list start step_minutes) 0.
Proof.
  intros Hs Hi.
  rewrite !times_list_nth by lia. unfold timedelta_minutes.
  assert (inject_Z (step_minutes * Z.of_nat i)
          < inject_Z (step_minutes * Z.of_nat (S i))) by (apply inject_Z_lt; nia).
  qlin.
Qed.

Lemma times_list_from_start (start : datetime) (step_minutes : Z) (i : nat) :
  (0 < step_minutes)%Z ->
  (i < Z.to_nat (n_steps step_minutes))%nat ->
  start <= nth i (times_list start step_minutes) 0.
Proof.
  intros Hs Hi. rewrite times_list_nth by assumption. unfold timedelta_minutes.
  assert (inject_Z 0 <= inject_Z (step_minutes * Z.of_nat i)) by (apply inject_Z_le; nia).
  change (inject_Z 0) with 0 in H. qlin.
Qed.

(** What the scanning loop returns. *)
Lemma scan_some (alt_vals : list Q) (todo i k : nat) :
  scan alt_vals i todo = Some k ->
  (i <= k < i + todo)%nat /\ crossing_at alt_vals k = true /\
  forall j, (i <= j < k)%nat -> crossing_at alt_vals j = false.
Proof.
  revert i. induction todo as [| todo IH]; intros i; simpl; [discriminate |].
  destruct (crossing_at alt_vals i) eqn:E.
  - intros H; injection H as <-.
    split; [lia | split; [exact E | intros j Hj; lia]].
  - intros H. apply IH in H as (Hk & Hc & Hbefore).
    split; [lia | split; [exact Hc |]].
    intros j Hj. destruct (Nat.eq_dec j i) as [-> | Hne]; [exact E |].
    apply Hbefore; lia.
Qed.

Lemma scan_none (alt_vals : list Q) (todo i : nat) :
  scan alt_vals i todo = None <->
  forall j, (i <= j < i + todo)%nat -> crossing_at alt_vals j = false.
Proof.
  revert i. induction todo as [| todo IH]; intros i; simpl.
  - split; [intros _ j Hj; lia | reflexivity].
  - destruct (crossing_at alt_vals i) eqn:E.
    + split; [discriminate |]. intros H. rewrite H in E by lia. discriminate.
    + rewrite IH. split; intros H j Hj.
      * destruct (Nat.eq_dec j i) as [-> | Hne]; [exact E | apply H; lia].
      * apply H; lia.
Qed.

(** The first crossing index is found. *)
Lemma scan_first (alt_vals : list Q) (todo k : nat) :
  (k < todo)%nat -> crossing_at alt_vals k = true ->
  (forall j, (j < k)%nat -> crossing_at alt_vals j = false) ->
  scan alt_vals 0 todo = Some k.
Proof.
  intros Hk Hc Hbefore.
  destruct (scan alt_vals 0 todo) as [k' |] eqn:E.
  - apply scan_some in E as (Hk' & Hc' & Hb').
    destruct (Nat.lt_trichotomy k k') as [Hlt | [-> | Hgt]]; [| reflexivity |].
    + rewrite Hb' in Hc by lia. discriminate.
    + rewrite Hbefore in Hc' by lia. discriminate.
  - rewrite scan_none in E. rewrite E in Hc by lia. discriminate.
Qed.

Lemma crossing_at_spec (alt_vals : list Q) (i : nat) :
  crossing_at alt_vals i = true <->
  nth i alt_vals 0 < target /\ target <= nth (S i) alt_vals 0.
Proof.
  unfold crossing_at. rewrite andb_true_iff, ltb_lt, geb_ge. reflexivity.
Qed.

(** Under the crossing condition the guard on the denominator is not
    taken and the fraction lies in (0, 1]. *)
Lemma crossing_frac_range (a0 a1 : Q) :
  a0 < target -> target <= a1 ->
  0 < a1 - a0 /\ neqb a1 a0 = true /\
  crossing_frac a0 a1 = (target - a0) / (a1 - a0) /\
  0 < crossing_frac a0 a1 /\ crossing_frac a0 a1 <= 1.
Proof.
  intros H0 H1.
  assert (Hd : 0 < a1 - a0) by lra.
  assert (Hn : neqb a1 a0 = true) by (apply neqb_neq; lra).
  unfold crossing_frac. rewrite Hn.
  repeat split; try assumption.
  - apply Qlt_shift_div_l; lra.
  - apply Qle_shift_div_r; lra.
Qed.

Section SunriseProperties.

Variable sun_alt_degree : EarthLocation -> Time -> Q.
Variables (local_date : date) (location : EarthLocation) (tz_offset_hours : Q).
Variable step_minutes : Z.
Hypothesis step_pos : (0 < step_minutes)%Z.

Let start := start_utc_dt local_date tz_offset_hours.
Let times := sampled_times local_date tz_offset_hours step_minutes.
Let alts := sampled_alts sun_alt_degree local_date location tz_offset_hours step_minutes.

Lemma sampled_times_length :
  List.length times = S (Z.to_nat (1440 / step_minutes)).
Proof.
  unfold times, sampled_times. rewrite times_list_length.
  now apply n_steps_pos.
Qed.

Lemma sampled_alts_length : List.length alts = List.length times.
Proof. unfold alts, sampled_alts. now rewrite length_map. Qed.

Lemma sampled_times_nth (i : nat) :
  (i < List.length times)%nat ->
  nth i times 0 = start + timedelta_minutes (inject_Z (step_minutes * Z.of_nat i)).
Proof.
  intros Hi. unfold times, sampled_times in *.
  rewrite times_list_length in Hi. now apply times_list_nth.
Qed.

Lemma sampled_alts_nth (i : nat) :
  (i < List.length times)%nat ->
  nth i alts 0 = sun_alt_degree location (nth i times 0).
Proof.
  intros Hi. unfold alts, sampled_alts.
  rewrite (nth_indep _ 0 (sun_alt_degree location 0))
    by now rewrite length_map.
  now rewrite map_nth.
Qed.

Lemma sampled_times_increasing (i : nat) :
  (S i < List.length times)%nat -> nth i times 0 < nth (S i) times 0.
Proof.
  intros Hi. unfold times, sampled_times in *.
  rewrite times_list_length in Hi. now apply times_list_increasing.
Qed.

Lemma sampled_times_from_start (i : nat) :
  (i < List.length times)%nat -> start <= nth i times 0.
Proof.
  intros Hi. unfold times, sampled_times in *.
  rewrite times_list_length in Hi. now apply times_list_from_start.
Qed.

(** The instant interpolated at a crossing lies after the earlier sample
    and not after the later one. *)
Lemma interpolate_between (i : nat) :
  (S i < List.length times)%nat ->
  nth i alts 0 < target -> target <= nth (S i) alts 0 ->
  nth i times 0 < interpolate times alts i /\
  interpolate times alts i <= nth (S i) times 0.
Proof.
  intros Hi H0 H1.
  pose proof (sampled_times_increasing i Hi) as Ht.
  destruct (crossing_frac_range _ _ H0 H1) as (_ & _ & _ & Hf0 & Hf1).
  unfold interpolate, Time_jd. rewrite float_eq.
  set (frac := crossing_frac (nth i alts 0) (nth (S i) alts 0)) in *.
  set (t0 := nth i times 0) in *. set (t1 := nth (S i) times 0) in *.
  split; nra.
Qed.

Lemma sunrise_unfold :
  approximate_sunrise_utc_for_local_date sun_alt_degree
    local_date location tz_offset_hours step_minutes
  = match scan alts 0 (List.length alts - 1) with
    | Some i => Some (interpolate times alts i)
    | None => Some start
    end.
Proof.
  unfold approximate_sunrise_utc_for_local_date.
  destruct (Z.leb_spec step_minutes 0) as [E | _]; [lia | reflexivity].
Qed.

(** Return from inside the loop, at the first crossing. *)
Lemma sunrise_at_first_crossing (i : nat) :
  (S i < List.length times)%nat ->
  crossing_at alts i = true ->
  (forall j, (j < i)%nat -> crossing_at alts j = false) ->
  approximate_sunrise_utc_for_local_date sun_alt_degree
    local_date location tz_offset_hours step_minutes
  = Some (interpolate times alts i).
Proof.
  intros Hi Hc Hbefore. rewrite sunrise_unfold.
  rewrite (scan_first alts (List.length alts - 1) i); auto.
  rewrite sampled_alts_length. lia.
Qed.

End SunriseProperties.



Lemma last_nth {A : Type} (l : list A) (d : A) :
  last l d = nth (List.length l - 1) l d.
Proof.
  induction l as [| x [| y l] IH]; try reflexivity.
  change (last (x :: y :: l) d) with (last (y :: l) d). rewrite IH.
  simpl. now rewrite Nat.sub_0_r.
Qed.

(** C1, as the code has it: for a positive step the altitude is sampled at
    the instants [start + i * step] minutes, [start] being local 00:00
    minus the offset, for [i = 0 .. 1440 // step]: these are all the
    multiples of the step within the local day, and the last of them is
    24:00 local exactly when the step divides 1440.  The samples are
    scanned in order, and at the first index [i] with altitude [i] below
    -0.833 and altitude [i+1] at or above it the solver returns the sample
    time [i] plus the fraction [(-0.833 - a_i) / (a_(i+1) - a_i)] of the
    step to sample time [i+1]. *)
Theorem sunrise_scan_and_interpolate
    (sun_alt_degree : EarthLocation -> Time -> Q)
    (local_date : date) (location : EarthLocation) (tz_offset_hours : Q)
    (step_minutes : Z) :
  let start := time_from_local_localdt (combine_midnight local_date) tz_offset_hours in
  let times := sampled_times local_date tz_offset_hours step_minutes in
  let alts := sampled_alts sun_alt_degree local_date location tz_offset_hours step_minutes in
  (0 < step_minutes)%Z ->
  (List.length times = S (Z.to_nat (1440 / step_minutes)) /\
   List.length alts = List.length times) /\
  (forall i, (i < List.length times)%nat ->
     nth i times 0 == start + inject_Z (step_minutes * Z.of_nat i) / 1440 /\
     nth i alts 0 = sun_alt_degree location (nth i times 0)) /\
  (forall k : nat,
     (k < List.length times)%nat <-> (step_minutes * Z.of_nat k <= 1440)%Z) /\
  (last times 0 == start + 1 <-> (step_minutes | 1440)%Z) /\
  (forall i, (S i < List.length times)%nat ->
     nth i alts 0 < target -> target <= nth (S i) alts 0 ->
     (forall j, (j < i)%nat ->
        ~ (nth j alts 0 < target /\ target <= nth (S j) alts 0)) ->
     approximate_sunrise_utc_for_local_date sun_alt_degree
       local_date location tz_offset_hours step_minutes
     = Some (Time_jd
               (nth i times 0
                + (target - nth i alts 0) / (nth (S i) alts 0 - nth i alts 0)
                  * (nth (S i) times 0 - nth i times 0)))).
Proof.
  intros start times alts Hs.
  pose proof (sampled_times_length local_date tz_offset_hours step_minutes Hs) as Hlen.
  fold times in Hlen.
  assert (Hq : (0 <= 1440 / step_minutes)%Z) by (apply Z.div_pos; lia).
  pose proof (Z.mul_div_le 1440 step_minutes Hs) as Hle.
  pose proof (Z.mul_succ_div_gt 1440 step_minutes Hs) as Hgt.
  split; [| split; [| split; [| split]]].
  - split; [exact Hlen | apply sampled_alts_length].
  - intros i Hi. split.
    + unfold times. rewrite sampled_times_nth by assumption.
      unfold start, time_from_local_localdt, start_utc_dt, timedelta_minutes.
      reflexivity.
    + now apply sampled_alts_nth.
  - intros k. rewrite Hlen. split; intros Hk.
    + assert (Z.of_nat k <= 1440 / step_minutes)%Z by lia. nia.
    + assert (Z.of_nat k <= 1440 / step_minutes)%Z
        by (apply Z.div_le_lower_bound; lia).
      lia.
  - rewrite last_nth, Hlen.
    replace (S (Z.to_nat (1440 / step_minutes)) - 1)%nat
      with (Z.to_nat (1440 / step_minutes)) by lia.
    unfold times. rewrite sampled_times_nth by (fold times; lia).
    rewrite Z2Nat.id by assumption.
    unfold start, time_from_local_localdt, start_utc_dt, timedelta_minutes.
    split.
    + intros Heq.
      assert (Hm : inject_Z (step_minutes * (1440 / step_minutes)) == inject_Z 1440)
        by (change (inject_Z 1440) with 1440; qlin).
      unfold Qeq in Hm; simpl in Hm. rewrite Z.mul_1_r in Hm.
      exists (1440 / step_minutes)%Z. rewrite Z.mul_comm. now symmetry.
    + intros [q Hq'].
      assert (Hm : (step_minutes * (1440 / step_minutes) = 1440)%Z).
      { rewrite Hq', Z.div_mul by lia. lia. }
      rewrite Hm. change (inject_Z 1440) with 1440. qlin.
  - intros i Hi H0 H1 Hbefore.
    destruct (crossing_frac_range _ _ H0 H1) as (_ & _ & Hfr & _).
    rewrite <- Hfr.
    apply sunrise_at_first_crossing; try assumption.
    + apply crossing_at_spec. now split.
    + intros j Hj. destruct (crossing_at alts j) eqn:E; [| exact E].
      apply crossing_at_spec in E. exfalso. now apply (Hbefore j).
Qed.

(** ** The sidereal-match solver *)

Section SiderealProperties.

Variable sidereal_time_hourangle : Time -> Q -> Q.
Variables (target_lst_hours lon_deg : Q) (approx_time_utc : Time).

Let f := lst_residual sidereal_time_hourangle target_lst_hours lon_deg.

Lemma lst_residual_range (t : Time) : -12 <= f t /\ f t < 12.
Proof.
  unfold f, lst_residual.
  destruct (fmod_range
              (sidereal_time_hourangle t lon_deg - target_lst_hours + 12) 24)
    as [Hlo Hhi]; lra.
Qed.

Lemma lst_residual_turns (t : Time) :
  exists k : Z,
    f t == sidereal_time_hourangle t lon_deg - target_lst_hours - 24 * inject_Z k.
Proof.
  unfold f, lst_residual, fmod.
  exists (Qfloor ((sidereal_time_hourangle t lon_deg - target_lst_hours + 12) / 24)).
  ring.
Qed.

Lemma window_left_eq (k : nat) :
  window_left approx_time_utc k
  == approx_time_utc - (12 + 6 * inject_Z (Z.of_nat k)) / 24.
Proof.
  induction k as [| k IH].
  - simpl. unfold u_hour. change (inject_Z 0) with 0. qinv_consts. ring.
  - change (window_left approx_time_utc (S k))
      with (window_left approx_time_utc k - u_hour 6).
    rewrite IH, Nat2Z.inj_succ, <- Z.add_1_r, inject_Z_plus.
    unfold u_hour. change (inject_Z 1) with 1. qinv_consts. ring.
Qed.

Lemma window_right_eq (k : nat) :
  window_right approx_time_utc k
  == approx_time_utc + (12 + 6 * inject_Z (Z.of_nat k)) / 24.
Proof.
  induction k as [| k IH].
  - simpl. unfold u_hour. change (inject_Z 0) with 0. qinv_consts. ring.
  - change (window_right approx_time_utc (S k))
      with (window_right approx_time_utc k + u_hour 6).
    rewrite IH, Nat2Z.inj_succ, <- Z.add_1_r, inject_Z_plus.
    unfold u_hour. change (inject_Z 1) with 1. qinv_consts. ring.
Qed.

(** The widening loop walks through the windows in order and stops at
    the first one whose ends do not have the same sign, or when its
    rounds are used up. *)
Lemma widen_windows (n k : nat) :
  exists j, (j <= n)%nat /\
    widen f n (window f approx_time_utc k) = window f approx_time_utc (k + j) /\
    (forall i, (i < j)%nat -> same_sign_ends f approx_time_utc (k + i)) /\
    ((j < n)%nat -> ~ same_sign_ends f approx_time_utc (k + j)).
Proof.
  revert k. induction n as [| n IH]; intros k.
  - exists 0%nat. rewrite Nat.add_0_r. simpl.
    repeat split; intros; lia.
  - simpl. destruct (leb _ 0) eqn:E.
    + exists 0%nat. rewrite Nat.add_0_r.
      split; [lia | split; [reflexivity | split]].
      * intros i Hi; lia.
      * intros _. apply leb_le in E. unfold same_sign_ends. lra.
    + destruct (IH (S k)) as (j & Hj & Hw & Hbefore & Hstop).
      exists (S j). split; [lia |]. split; [| split].
      * rewrite Nat.add_succ_r. exact Hw.
      * intros i Hi. destruct i as [| i].
        -- rewrite Nat.add_0_r. apply leb_gt in E. exact E.
        -- rewrite Nat.add_succ_r. apply Hbefore. lia.
      * intros Hlt. rewrite Nat.add_succ_r. apply Hstop. lia.
Qed.

Lemma find_time_for_lst_unfold :
  find_time_for_lst sidereal_time_hourangle target_lst_hours approx_time_utc lon_deg
  = let w := widen f 8 (window f approx_time_utc 0) in
    if gtb (br_fl w * br_fr w) 0 then approx_time_utc
    else bisect f 60 (br_left w) (br_right w) (br_fl w) (br_fr w).
Proof. reflexivity. Qed.

End SiderealProperties.


(** ** The solvers on concrete inputs *)

Lemma star_positions_well_formed_witness :
  exists rows,
    compute_stars_positions_for_time linear_altaz kolkata_six_am kolkata
      get_star_catalog = Some rows /\
    Forall2 (fun r row =>
               (0 <= az_deg row /\ az_deg row < 360) /\
               (-90 <= alt_deg row /\ alt_deg row <= 90) /\
               (visible row = true <->
                0 < fst (linear_altaz kolkata kolkata_six_am (ra_h r) (dec_deg r))))
            get_star_catalog rows.
Proof.
  eexists. split; [reflexivity |].
  apply (star_positions_well_formed linear_altaz kolkata_six_am kolkata
           get_star_catalog).
  reflexivity.
Defined.

(** With the triangular Sun the first crossing at Kolkata on 2024-01-01 is
    between the samples of 05:30 and 05:40 local time. *)
Lemma triangle_sun_first_crossing :
  scan (sampled_alts triangle_sun_alt new_year_2024 kolkata kolkata_tz 10) 0 144
  = Some 33%nat.
Proof. vm_compute. reflexivity. Qed.





Lemma sunrise_scan_and_interpolate_witness :
  let times := sampled_times new_year_2024 kolkata_tz 10 in
  let alts := sampled_alts triangle_sun_alt new_year_2024 kolkata kolkata_tz 10 in
  List.length times = 145%nat /\
  last times 0
  == time_from_local_localdt (combine_midnight new_year_2024) kolkata_tz + 1 /\
  approximate_sunrise_utc_for_local_date triangle_sun_alt
    new_year_2024 kolkata kolkata_tz 10
  = Some (Time_jd
            (nth 33 times 0
             + (target - nth 33 alts 0) / (nth 34 alts 0 - nth 33 alts 0)
               * (nth 34 times 0 - nth 33 times 0))).
Proof.
  intros times alts.
  destruct (sunrise_scan_and_interpolate triangle_sun_alt new_year_2024 kolkata
              kolkata_tz 10) as ((Hlen & _) & _ & _ & Hlast & Hscan).
  - reflexivity.
  - split; [exact Hlen |]. split.
    + apply Hlast. exists 144%Z. reflexivity.
    + apply (Hscan 33%nat).
      * apply Nat.ltb_lt. vm_compute. reflexivity.
      * vm_compute. reflexivity.
      * vm_compute. discriminate.
      * intros j Hj Hc. apply crossing_at_spec in Hc.
        destruct (scan_some _ _ _ _ triangle_sun_first_crossing) as (_ & _ & Hb).
        rewrite (Hb j) in Hc by lia. discriminate.
Defined.

(** C1 as stated fails on the sampling grid: with a step of 7 minutes the
    last sample is taken at 23:55 local time, not at 24:00. *)
Lemma sunrise_grid_stops_before_day_end :
  ~ (forall (local_date : date) (tz_offset_hours : Q) (step_minutes : Z),
       (0 < step_minutes)%Z ->
       last (sampled_times local_date tz_offset_hours step_minutes) 0
       == time_from_local_localdt (combine_midnight local_date) tz_offset_hours + 1).
Proof.
  intros H. specialize (H new_year_2024 kolkata_tz 7%Z eq_refl).
  vm_compute in H. discriminate.
Qed.

(** A rise in the last minutes of the local day is found when the step
    divides 1440 and missed when the grid stops short, or when the step is
    longer than the day: the solver then returns local midnight. *)
Lemma late_sunrise_found_or_missed :
  (exists r, approximate_sunrise_utc_for_local_date late_sun_alt
               new_year_2024 kolkata kolkata_tz 10 = Some r /\
             r == start_utc_dt new_year_2024 kolkata_tz
                  + timedelta_minutes (1430 + 4.167)) /\
  approximate_sunrise_utc_for_local_date late_sun_alt
    new_year_2024 kolkata kolkata_tz 7
  = Some (start_utc_dt new_year_2024 kolkata_tz) /\
  approximate_sunrise_utc_for_local_date late_sun_alt
    new_year_2024 kolkata kolkata_tz 1441
  = Some (start_utc_dt new_year_2024 kolkata_tz).
Proof.
  split; [| split].
  - eexists. split; [vm_compute; reflexivity | vm_compute; reflexivity].
  - vm_compute. reflexivity.
  - vm_compute. reflexivity.
Qed.

(** A step that is not positive has no result. *)
Lemma sunrise_nonpositive_step sun_alt_degree local_date location
    tz_offset_hours (step_minutes : Z) :
  (step_minutes <= 0)%Z ->
  approximate_sunrise_utc_for_local_date sun_alt_degree
    local_date location tz_offset_hours step_minutes = None.
Proof.
  intros H. unfold approximate_sunrise_utc_for_local_date.
  destruct (Z.leb_spec step_minutes 0); [reflexivity | lia].
Qed.



(** C2 on the application's default observer and star (Kolkata, Spica,
    2024-01-01 06:00 local time), with the mean sidereal time: the first
    window does not bracket, the second one, [approx - 18h, approx + 18h],
    does, and it contains the transit; the residual is positive at its
    left end and negative at its right end, so the bisection closes in on
    the jump of the wrapped residual from +12 to -12 and not on its zero.
    The sidereal time at the returned instant is 12 hours away from the
    target, and the instant 11.6 hours before the approximate one. *)
Theorem find_time_for_lst_returns_wrap_jump :
  let X := 13.419889 in
  let lon := 88.3639 in
  let f := lst_residual mean_sidereal_hourangle X lon in
  let w := widen f 8 (initial_bracket f kolkata_six_am) in
  let t := find_time_for_lst mean_sidereal_hourangle X kolkata_six_am lon in
  (w = window f kolkata_six_am 1 /\ 0 < br_fl w /\ br_fr w < 0) /\
  (br_left w <= spica_transit /\ spica_transit <= br_right w /\
   local_sidereal_time_hours mean_sidereal_hourangle spica_transit lon == X /\
   f spica_transit == 0) /\
  (local_sidereal_time_hours mean_sidereal_hourangle t lon - X < -11.999999 /\
   11.999999 < Qabs (f t) /\
   ~ Qabs (f t) <= 1e-6) /\
  (kolkata_six_am - u_hour 11.62 < t /\ t < kolkata_six_am - u_hour 11.61).
Proof.
  cbv zeta. split; [| split; [| split]].
  - split; [vm_compute; reflexivity |].
    split; vm_compute; reflexivity.
  - split; [vm_compute; discriminate |].
    split; [vm_compute; discriminate |].
    split; vm_compute; reflexivity.
  - split; [vm_compute; reflexivity |].
    split; [vm_compute; reflexivity |].
    intros H. vm_compute in H. apply H. reflexivity.
  - split; vm_compute; reflexivity.
Qed.

(** Twelve hours later the second window has a negative residual at its
    left end and a positive one at its right end, and the bisection closes
    in on a zero of the residual: the same transit. *)
Lemma find_time_for_lst_finds_transit_from_evening :
  let X := 13.419889 in
  let lon := 88.3639 in
  let f := lst_residual mean_sidereal_hourangle X lon in
  let approx := kolkata_six_am + u_hour 12 in
  let w := widen f 8 (initial_bracket f approx) in
  let t := find_time_for_lst mean_sidereal_hourangle X approx lon in
  (w = window f approx 1 /\ br_fl w < 0 /\ 0 < br_fr w) /\
  Qabs (f t) < 1e-7 /\
  Qabs (t - spica_transit) < timedelta_minutes (1 / 1000).
Proof.
  cbv zeta. split; [| split].
  - split; [vm_compute; reflexivity |].
    split; vm_compute; reflexivity.
  - vm_compute. reflexivity.
  - vm_compute. reflexivity.
Qed.

(** ** The alt/az inversion solver *)

Section AltAzProperties.

Variable transform_to_altaz : EarthLocation -> Time -> Q -> Q -> Q * Q.
Variable np_hypot : Q -> Q -> Q.
Variable err : Q -> Q.

(** One round drops the outer third of the interval on the side of the
    probe with the larger error. *)
Lemma ternary_step_cases (a b : Q) :
  let m1 := float (a + (b - a) / 3) in
  let m2 := float (a + 2 * (b - a) / 3) in
  (err m1 < err m2 -> ternary_step err (a, b) = (a, m2)) /\
  (err m2 <= err m1 -> ternary_step err (a, b) = (m1, b)).
Proof.
  intros m1 m2. unfold ternary_step; cbn [fst snd]. fold m1 m2.
  split; intros H.
  - apply ltb_lt in H. now rewrite H.
  - apply ltb_ge in H. now rewrite H.
Qed.

Lemma ternary_step_shrinks (a b : Q) :
  a <= b ->
  let ab' := ternary_step err (a, b) in
  a <= fst ab' /\ fst ab' <= snd ab' /\ snd ab' <= b /\
  snd ab' - fst ab' == (2 # 3) * (b - a).
Proof.
  intros Hab ab'. unfold ab', ternary_step; cbn [fst snd].
  pose proof (float_eq (a + (b - a) / 3)) as E1.
  pose proof (float_eq (a + 2 * (b - a) / 3)) as E2.
  destruct (ltb _ _); cbn [fst snd].
  - rewrite E2. repeat split; qlin.
  - rewrite E1. repeat split; qlin.
Qed.

Lemma ternary_shrinks (n : nat) (a b : Q) :
  a <= b ->
  let ab' := ternary err n (a, b) in
  a <= fst ab' /\ fst ab' <= snd ab' /\ snd ab' <= b /\
  snd ab' - fst ab' == (2 # 3) ^ Z.of_nat n * (b - a).
Proof.
  revert a b. induction n as [| n IH]; intros a b Hab.
  - cbn [ternary fst snd]. change ((2 # 3) ^ Z.of_nat 0) with 1.
    repeat split; lra.
  - cbn [ternary]. cbv zeta.
    destruct (ternary_step_shrinks a b Hab) as (H1 & H2 & H3 & H4).
    destruct (ternary_step err (a, b)) as [a1 b1]; cbn [fst snd] in *.
    destruct (IH a1 b1 H2) as (K1 & K2 & K3 & K4).
    split; [lra | split; [exact K2 | split; [lra |]]].
    rewrite K4, H4, Nat2Z.inj_succ, <- Z.add_1_r.
    rewrite Qpower_plus by discriminate.
    change ((2 # 3) ^ 1) with (2 # 3). ring.
Qed.

End AltAzProperties.


(** On binary64 values the interval stops narrowing once its ends are two
    Julian Dates apart that have no third point between them: for the
    distance to 2460310.6 on the window around 2024-01-01 00:30 UTC that
    is the case after 53 rounds, at a width of 2^-31 day (40
    microseconds), and the remaining rounds change nothing. *)
Lemma ternary_stalls_at_julian_date_spacing :
  let start := (Binary64.jd_window_left, Binary64.jd_window_right) in
  let ab := Binary64.ternary Binary64.distance_to_best 53 start in
  Binary64.ternary_step Binary64.distance_to_best ab = ab /\
  Binary64.ternary Binary64.distance_to_best 80 start = ab /\
  PrimFloat.sub (snd ab) (fst ab) = 0x1p-31%float.
Proof. cbv zeta. repeat split; vm_compute; reflexivity. Qed.


(** ** Construction of locations and instants *)

Lemma geodetic_location_checks_latitude_only :
  checks_latitude_only geodetic_location.
Proof.
  intros lat lon height. unfold geodetic_location.
  destruct (leb (-90) lat) eqn:E1; destruct (leb lat 90) eqn:E2;
    cbn [andb];
    try apply leb_le in E1; try apply leb_le in E2;
    try apply leb_gt in E1; try apply leb_gt in E2.
  - split; [discriminate | intros [H | H]; lra].
  - split; [intros _; now right | reflexivity].
  - split; [intros _; now left | reflexivity].
  - split; [intros _; now left | reflexivity].
Qed.




(** * Further properties of the code *)

(** ** The sunrise solver stays within the local day *)

Lemma times_list_within_day (start : datetime) (step_minutes : Z) (i : nat) :
  (0 < step_minutes)%Z ->
  (i < Z.to_nat (n_steps step_minutes))%nat ->
  nth i (times_list start step_minutes) 0 <= start + 1.
Proof.
  intros Hs Hi. rewrite times_list_nth by assumption.
  rewrite n_steps_pos in Hi by assumption.
  assert (Hq : (0 <= 1440 / step_minutes)%Z) by (apply Z.div_pos; lia).
  pose proof (Z.mul_div_le 1440 step_minutes Hs) as Hle.
  assert (Hi' : (Z.of_nat i <= 1440 / step_minutes)%Z) by lia.
  assert (Hm : (step_minutes * Z.of_nat i <= 1440)%Z) by nia.
  apply inject_Z_le in Hm. change (inject_Z 1440) with 1440 in Hm.
  unfold timedelta_minutes.
  revert Hm. generalize (inject_Z (step_minutes * Z.of_nat i)). intros q Hm.
  qlin.
Qed.

Lemma sunrise_result_bounds
    (sun_alt_degree : EarthLocation -> Time -> Q)
    (local_date : date) (location : EarthLocation) (tz_offset_hours : Q)
    (step_minutes : Z) :
  (0 < step_minutes)%Z ->
  exists r,
    approximate_sunrise_utc_for_local_date sun_alt_degree
      local_date location tz_offset_hours step_minutes = Some r /\
    start_utc_dt local_date tz_offset_hours <= r /\
    r <= start_utc_dt local_date tz_offset_hours + 1.
Proof.
  intros Hs. rewrite sunrise_unfold by assumption.
  set (alts := sampled_alts sun_alt_degree local_date location
                 tz_offset_hours step_minutes).
  set (times := sampled_times local_date tz_offset_hours step_minutes).
  destruct (scan alts 0 (List.length alts - 1)) as [i |] eqn:E.
  - apply scan_some in E as (Hi & Hc & _).
    apply crossing_at_spec in Hc as [H0 H1].
    assert (Hlen : List.length alts = List.length times)
      by (apply sampled_alts_length).
    assert (Hi' : (S i < List.length times)%nat) by lia.
    destruct (interpolate_between sun_alt_degree local_date location
                tz_offset_hours step_minutes Hs i Hi' H0 H1) as [Hlo Hhi].
    fold alts times in Hlo, Hhi.
    pose proof (sampled_times_from_start local_date tz_offset_hours
                  step_minutes Hs i ltac:(fold times; lia)) as Hge.
    fold times in Hge.
    assert (Hup : nth (S i) times 0 <= start_utc_dt local_date tz_offset_hours + 1).
    { unfold times, sampled_times. apply times_list_within_day; [assumption |].
      unfold times, sampled_times in Hi'. now rewrite times_list_length in Hi'. }
    eexists. split; [reflexivity |]. split; lra.
  - eexists. split; [reflexivity |]. split; lra.
Qed.



(** ** The clock of [main] *)

Lemma Qfloor_unique (x : Q) (n : Z) :
  inject_Z n <= x -> x < inject_Z n + 1 -> Qfloor x = n.
Proof.
  intros Hlo Hhi.
  pose proof (Qfloor_le x) as Fl. pose proof (Qlt_floor x) as Fh.
  rewrite inject_Z_plus in Fh. change (inject_Z 1) with 1 in Fh.
  assert (H1 : inject_Z (Qfloor x) < inject_Z n + 1) by lra.
  assert (H2 : inject_Z n < inject_Z (Qfloor x) + 1) by lra.
  unfold Qlt, Qplus, inject_Z in H1, H2; simpl in H1, H2. lia.
Qed.

Lemma seconds_of_day_range (t : time_of_day) :
  valid_time_of_day t -> (0 <= seconds_of_day t < 86400)%Z.
Proof. unfold valid_time_of_day, seconds_of_day. lia. Qed.

Lemma day_fraction_range (t : time_of_day) :
  valid_time_of_day t ->
  0 <= inject_Z (seconds_of_day t) / 86400 /\
  inject_Z (seconds_of_day t) / 86400 < 1.
Proof.
  intros Hv. apply seconds_of_day_range in Hv as [Hlo Hhi].
  apply inject_Z_le in Hlo. apply inject_Z_lt in Hhi.
  change (inject_Z 0) with 0 in Hlo. change (inject_Z 86400) with 86400 in Hhi.
  revert Hlo Hhi. generalize (inject_Z (seconds_of_day t)). intros q Hlo Hhi.
  split; qlin.
Qed.

(** The date of a combined datetime is the date it was combined from, and
    a day earlier it is the day before. *)
Lemma datetime_date_combine (d : date) (t : time_of_day) :
  valid_time_of_day t ->
  datetime_date (datetime_combine d t) = d /\
  datetime_date (datetime_combine d t - timedelta_days 1) = (d - 1)%Z.
Proof.
  intros Hv. destruct (day_fraction_range t Hv) as [Hlo Hhi].
  unfold datetime_date, datetime_combine, combine_midnight, timedelta_days.
  split; apply Qfloor_unique.
  - lra.
  - lra.
  - unfold Z.sub. rewrite inject_Z_plus. cbn [Z.opp].
    change (inject_Z (-1)) with (-1). lra.
  - unfold Z.sub. rewrite inject_Z_plus. cbn [Z.opp].
    change (inject_Z (-1)) with (-1). lra.
Qed.

Lemma start_utc_dt_pred (d : date) (tz : Q) :
  start_utc_dt (d - 1)%Z tz == start_utc_dt d tz - 1.
Proof.
  unfold start_utc_dt, combine_midnight, Z.sub.
  rewrite inject_Z_plus. cbn [Z.opp]. change (inject_Z (-1)) with (-1). ring.
Qed.

Lemma ancient_units_bounds (s : Q) :
  0 <= s -> s < 172800 ->
  let u := ancient_units s in
  (0 <= ghati u /\ ghati u < 120) /\
  (0 <= muhurta u /\ muhurta u < 60) /\
  (0 <= yama u /\ yama u < 16).
Proof.
  intros H0 H1. unfold ancient_units, ghati_sec; cbn [ghati muhurta yama].
  change (24 * 60) with 1440. repeat split; qlin.
Qed.



(** ** The hour angle shown by [main] *)

(** Two values a whole number of turns apart and less than a turn apart
    are equal. *)
Lemma turns_unique (a b : Q) (k : Z) :
  a == b + 24 * inject_Z k -> -24 < a - b -> a - b < 24 -> a == b.
Proof.
  intros E Hlo Hhi.
  assert (H1 : inject_Z (-1) < inject_Z k)
    by (change (inject_Z (-1)) with (-1); lra).
  assert (H2 : inject_Z k < inject_Z 1)
    by (change (inject_Z 1) with 1; lra).
  unfold Qlt, inject_Z in H1, H2; simpl in H1, H2.
  assert (k = 0%Z) as -> by lia.
  rewrite E. change (inject_Z 0) with 0. ring.
Qed.

Lemma hour_angle_now_turns (lst_hours target_ra_h : Q) :
  exists k : Z,
    hour_angle_now lst_hours target_ra_h
    == lst_hours - target_ra_h + 24 * inject_Z k.
Proof.
  unfold hour_angle_now, fmod.
  set (q := Qfloor ((lst_hours - target_ra_h + 24) / 24)).
  destruct (gtb _ 12).
  - exists (- q)%Z. rewrite inject_Z_opp. ring.
  - exists (1 - q)%Z. unfold Z.sub. rewrite inject_Z_plus, inject_Z_opp.
    change (inject_Z 1) with 1. ring.
Qed.

Lemma hour_angle_now_bounds (lst_hours target_ra_h : Q) :
  -12 < hour_angle_now lst_hours target_ra_h /\
  hour_angle_now lst_hours target_ra_h <= 12.
Proof.
  unfold hour_angle_now.
  destruct (fmod_range (lst_hours - target_ra_h + 24) 24) as [Hlo Hhi]; [lra |].
  destruct (gtb _ 12) eqn:E.
  - apply gtb_gt in E. split; lra.
  - apply gtb_le in E. split; lra.
Qed.


(** ** What the bisection of the sidereal-match solver guarantees *)

Lemma half_power_succ (n : nat) :
  (1 # 2) ^ Z.of_nat (S n) == (1 # 2) * (1 # 2) ^ Z.of_nat n.
Proof.
  rewrite Nat2Z.inj_succ, <- Z.add_1_r, Qpower_plus by discriminate.
  change ((1 # 2) ^ 1) with (1 # 2). ring.
Qed.

(** From a bracket with a sign change the bisection returns either an
    instant where the residual is below the tolerance, or the midpoint of
    an interval [2^n] times narrower that still has a sign change. *)
Lemma bisect_spec (f : Time -> Q) (n : nat) :
  forall left right : Time,
    left <= right -> f left * f right <= 0 ->
    let t := bisect f n left right (f left) (f right) in
    Qabs (f t) < 1e-7 \/
    exists l r,
      left <= l /\ l <= t /\ t <= r /\ r <= right /\
      r - l == (1 # 2) ^ Z.of_nat n * (right - left) /\
      t == (l + r) / 2 /\
      f l * f r <= 0.
Proof.
  induction n as [| n IH]; intros left right Hlr Hsign.
  - right. exists left, right. cbn [bisect]. unfold Time_jd.
    rewrite float_eq. change ((1 # 2) ^ Z.of_nat 0) with 1.
    repeat split; try qlin; exact Hsign.
  - cbn [bisect]. cbv zeta.
    set (mid := Time_jd ((left + right) / 2)).
    assert (Hmid : mid == (left + right) / 2) by apply float_eq.
    destruct (ltb (Qabs (f mid)) 1e-7) eqn:Etol.
    + left. now apply ltb_lt in Etol.
    + destruct (leb (f left * f mid) 0) eqn:Esign.
      * apply leb_le in Esign.
        assert (Hlm : left <= mid) by (rewrite Hmid; qlin).
        destruct (IH left mid Hlm Esign) as [Htol | (l & r & H1 & H2 & H3 & H4 & H5 & H6 & H7)].
        -- left. exact Htol.
        -- right. exists l, r.
           assert (Hmr : mid <= right) by (rewrite Hmid; qlin).
           repeat split; try assumption; try lra.
           rewrite H5, half_power_succ, Hmid. qinv_consts. ring.
      * apply leb_gt in Esign.
        assert (Hmr : mid <= right) by (rewrite Hmid; qlin).
        assert (Hsign' : f mid * f right <= 0) by nra.
        destruct (IH mid right Hmr Hsign') as [Htol | (l & r & H1 & H2 & H3 & H4 & H5 & H6 & H7)].
        -- left. exact Htol.
        -- right. exists l, r.
           assert (Hlm : left <= mid) by (rewrite Hmid; qlin).
           repeat split; try assumption; try lra.
           rewrite H5, half_power_succ, Hmid. qinv_consts. ring.
Qed.

(** The bisection never leaves the bracket it is given. *)
Lemma bisect_within (f : Time -> Q) (n : nat) :
  forall (left right : Time) (fl fr : Q),
    left <= right ->
    left <= bisect f n left right fl fr /\ bisect f n left right fl fr <= right.
Proof.
  induction n as [| n IH]; intros l r fl fr Hlr.
  - cbn [bisect]. unfold Time_jd. rewrite float_eq. split; qlin.
  - cbn [bisect]. cbv zeta.
    set (mid := Time_jd ((l + r) / 2)).
    assert (Hmid : mid == (l + r) / 2) by apply float_eq.
    assert (l <= mid /\ mid <= r) as [A B] by (rewrite Hmid; split; qlin).
    destruct (ltb _ _); [split; assumption |].
    destruct (leb _ _).
    + destruct (IH l mid fl (f mid) A). split; lra.
    + destruct (IH mid r (f mid) fr B). split; lra.
Qed.

Lemma window_span (approx_time_utc : Time) (k : nat) :
  (k <= 8)%nat ->
  approx_time_utc - 60 / 24 <= window_left approx_time_utc k /\
  window_left approx_time_utc k <= approx_time_utc /\
  approx_time_utc <= window_right approx_time_utc k /\
  window_right approx_time_utc k <= approx_time_utc + 60 / 24 /\
  window_right approx_time_utc k - window_left approx_time_utc k <= 5.
Proof.
  intros Hk.
  rewrite window_left_eq, window_right_eq.
  assert (H0 : inject_Z 0 <= inject_Z (Z.of_nat k)) by (apply inject_Z_le; lia).
  assert (H8 : inject_Z (Z.of_nat k) <= inject_Z 8) by (apply inject_Z_le; lia).
  change (inject_Z 0) with 0 in H0. change (inject_Z 8) with 8 in H8.
  revert H0 H8. generalize (inject_Z (Z.of_nat k)). intros q H0 H8.
  repeat split; qlin.
Qed.

(** X4: whatever the sidereal time function, the sidereal-match solver
    returns an instant within 60 hours of the approximate one, and one of
    three things holds of it: it is the approximate instant itself, no
    window having had a sign change; or the residual there is below the
    tolerance 1e-7 h in absolute value; or there are two instants, each
    within a second of it, at which the residuals do not have the same
    sign.  That last case promises a sign change of the residual, not a
    zero. *)
Theorem find_time_for_lst_guarantee
    (sidereal_time_hourangle : Time -> Q -> Q)
    (target_lst_hours : Q) (approx_time_utc : Time) (lon_deg : Q) :
  let f := lst_residual sidereal_time_hourangle target_lst_hours lon_deg in
  let t := find_time_for_lst sidereal_time_hourangle target_lst_hours
             approx_time_utc lon_deg in
  (approx_time_utc - 60 / 24 <= t /\ t <= approx_time_utc + 60 / 24) /\
  ((t = approx_time_utc /\
    forall k, (k <= 8)%nat -> same_sign_ends f approx_time_utc k) \/
   Qabs (f t) < 1e-7 \/
   exists l r,
     Qabs (t - l) <= 1 / 86400 /\ Qabs (t - r) <= 1 / 86400 /\
     f l * f r <= 0).
Proof.
  intros f t. unfold t. rewrite find_time_for_lst_unfold. fold f. cbv zeta.
  destruct (widen_windows sidereal_time_hourangle target_lst_hours lon_deg
              approx_time_utc 8 0) as (k & Hk & Hw & Hbefore & Hstop).
  fold f in Hw, Hbefore, Hstop. cbn [Nat.add] in Hw, Hbefore, Hstop.
  rewrite Hw. unfold window; cbn [br_left br_right br_fl br_fr].
  destruct (window_span approx_time_utc k Hk) as (W1 & W2 & W3 & W4 & W5).
  set (wl := window_left approx_time_utc k) in *.
  set (wr := window_right approx_time_utc k) in *.
  destruct (gtb (f wl * f wr) 0) eqn:E.
  - apply gtb_gt in E. split; [split; qlin |].
    left. split; [reflexivity |].
    assert (k = 8%nat) as Hk8.
    { destruct (Nat.eq_dec k 8) as [-> | Hne]; [reflexivity |].
      exfalso. apply Hstop; [lia | exact E]. }
    intros j Hj. destruct (Nat.eq_dec j k) as [-> | Hne].
    + exact E.
    + apply Hbefore. lia.
  - apply gtb_le in E.
    assert (Hlr : wl <= wr) by lra.
    destruct (bisect_spec f 60 wl wr Hlr E)
      as [Htol | (l & r & H1 & H2 & H3 & H4 & H5 & H6 & H7)].
    + destruct (bisect_within f 60 wl wr (f wl) (f wr) Hlr) as [Hin1 Hin2].
      split; [split; qlin |]. right. left. exact Htol.
    + split; [split; qlin |]. right. right. exists l, r.
      assert (Hsec : r - l <= 1 / 86400).
      { rewrite H5. change (Z.of_nat 60) with 60%Z.
        assert (P0 : 0 <= (1 # 2) ^ 60) by (vm_compute; discriminate).
        assert (P1 : 5 * (1 # 2) ^ 60 <= 1 / 86400) by (vm_compute; discriminate).
        revert P0 P1. generalize ((1 # 2) ^ 60). intros w P0 P1.
        assert (P2 : w * (wr - wl) <= w * 5) by nra.
        lra. }
      revert Hsec. generalize (1 / 86400). intros s Hsec.
      split; [apply Qabs_case; intros _; lra |].
      split; [apply Qabs_case; intros _; lra | exact H7].
Qed.

(** ** The ternary search under its assumption *)

Section Unimodal.

Variable err : Q -> Q.
Variables a0 b0 x_min : Q.
Hypothesis Huni : unimodal_on err a0 b0 x_min.

(** A round never drops the minimum. *)
Lemma ternary_step_keeps_minimum (a b : Q) :
  a0 <= a -> b <= b0 -> a <= x_min -> x_min <= b ->
  let ab' := ternary_step err (a, b) in
  fst ab' <= x_min /\ x_min <= snd ab'.
Proof.
  destruct Huni as (_ & Hdec & Hinc).
  intros Ha Hb Hax Hxb ab'. unfold ab', ternary_step; cbn [fst snd].
  set (m1 := float (a + (b - a) / 3)).
  set (m2 := float (a + 2 * (b - a) / 3)).
  assert (E1 : m1 == a + (b - a) / 3) by apply float_eq.
  assert (E2 : m2 == a + 2 * (b - a) / 3) by apply float_eq.
  destruct (ltb (err m1) (err m2)) eqn:E; cbn [fst snd].
  - apply ltb_lt in E. split; [exact Hax |].
    destruct (Qlt_le_dec m2 x_min) as [Hlt | Hge]; [| exact Hge].
    exfalso.
    assert (Hm : err m2 < err m1).
    { apply Hdec; [rewrite E1; qlin | rewrite E1, E2; qlin | lra]. }
    lra.
  - apply ltb_ge in E. split; [| exact Hxb].
    destruct (Qlt_le_dec x_min m1) as [Hlt | Hge]; [| exact Hge].
    exfalso.
    assert (Hm : err m1 < err m2).
    { apply Hinc; [lra | rewrite E1, E2; qlin | rewrite E2; qlin]. }
    lra.
Qed.

Lemma ternary_keeps_minimum (n : nat) (a b : Q) :
  a0 <= a -> b <= b0 -> a <= x_min -> x_min <= b ->
  let ab' := ternary err n (a, b) in
  fst ab' <= x_min /\ x_min <= snd ab'.
Proof.
  revert a b. induction n as [| n IH]; intros a b Ha Hb Hax Hxb.
  - cbn [ternary fst snd]. now split.
  - cbn [ternary]. cbv zeta.
    destruct (ternary_step_keeps_minimum a b Ha Hb Hax Hxb) as [H1 H2].
    assert (Hab : a <= b) by lra.
    destruct (ternary_step_shrinks err a b Hab) as (K1 & _ & K3 & _).
    destruct (ternary_step err (a, b)) as [a1 b1]; cbn [fst snd] in *.
    apply IH; lra.
Qed.

End Unimodal.


Lemma rising_star_error (target_alt_deg : Q) (jd : Q) :
  error_at_jd rising_altaz taxicab_hypot target_alt_deg 120 0 0 kolkata jd
  == Qabs (jd - (2460310 + target_alt_deg)).
Proof.
  unfold error_at_jd, rising_altaz, taxicab_hypot, Time_jd; cbn [fst snd].
  rewrite float_eq.
  assert (E : azimuth_wrap 120 120 == 0) by (vm_compute; reflexivity).
  rewrite E. change (Qabs 0) with 0.
  setoid_replace (jd - 2460310 - target_alt_deg)
    with (jd - (2460310 + target_alt_deg)) by ring.
  ring.
Qed.


(** ** The star table and the layers drawn from it *)

Section StarTable.

Variable transform_to_altaz : EarthLocation -> Time -> Q -> Q -> Q * Q.
Variables (astropy_time : Time) (location : EarthLocation).

Let finish (r : star) : star_row :=
  clip_alt (normalize_az (star_position transform_to_altaz astropy_time location r)).

Lemma table_is_map (stars : list star) (rows : list star_row) :
  compute_stars_positions_for_time transform_to_altaz astropy_time location stars
  = Some rows ->
  rows = map finish stars.
Proof.
  intros H. apply compute_stars_positions_some in H as [_ ->].
  now rewrite !map_map.
Qed.

(** The flag of a row agrees with the sign of the altitude stored in it,
    clipped as it is. *)
Lemma finish_visible (r : star) :
  visible (finish r) = true <-> 0 < alt_deg (finish r).
Proof.
  unfold finish; cbn [visible alt_deg clip_alt normalize_az star_position].
  rewrite gtb_gt. symmetry. apply clip_pos_iff; lra.
Qed.

Lemma finish_ranges (r : star) :
  (0 <= az_deg (finish r) /\ az_deg (finish r) < 360) /\
  (-90 <= alt_deg (finish r) /\ alt_deg (finish r) <= 90).
Proof.
  unfold finish; cbn [az_deg alt_deg clip_alt normalize_az star_position].
  split; [apply fmod_range | apply clip_range]; lra.
Qed.

(** X6: the table has one row for each star of the catalog, in the order
    of the catalog and with the star's name, right ascension, declination
    and magnitude unchanged; and in every row the visibility flag is set
    exactly when the altitude stored in the row is positive. *)
Theorem star_table_keeps_catalog (stars : list star) (rows : list star_row) :
  compute_stars_positions_for_time transform_to_altaz astropy_time location stars
  = Some rows ->
  (map row_name rows = map name stars /\
   map row_ra_h rows = map ra_h stars /\
   map row_dec_deg rows = map dec_deg stars /\
   map row_mag rows = map mag stars) /\
  Forall (fun row => visible row = true <-> 0 < alt_deg row) rows.
Proof.
  intros H. apply table_is_map in H as ->.
  split.
  - rewrite !map_map. repeat split; apply map_ext; intros r; reflexivity.
  - apply Forall_forall. intros row Hin.
    apply in_map_iff in Hin as (r & <- & _). apply finish_visible.
Qed.

End StarTable.

Lemma star_table_keeps_catalog_witness :
  exists rows,
    compute_stars_positions_for_time linear_altaz kolkata_six_am kolkata
      get_star_catalog = Some rows /\
    map row_name rows = map name get_star_catalog /\
    Forall (fun row => visible row = true <-> 0 < alt_deg row) rows.
Proof.
  eexists. split; [reflexivity |].
  destruct (star_table_keeps_catalog linear_altaz kolkata_six_am kolkata
              get_star_catalog _ eq_refl) as ((Hn & _) & Hv).
  split; [exact Hn | exact Hv].
Defined.

Lemma marker_size_range (row : star_row) :
  4 <= marker_size row /\ marker_size row <= 18.
Proof. unfold marker_size. apply clip_range. lra. Qed.

Lemma clip_monotone (x y lower upper : Q) :
  lower <= upper -> x <= y -> clip x lower upper <= clip y lower upper.
Proof.
  intros Hlu Hxy. unfold clip.
  destruct (ltb x lower) eqn:X1; destruct (ltb y lower) eqn:Y1;
    try apply ltb_lt in X1; try apply ltb_ge in X1;
    try apply ltb_lt in Y1; try apply ltb_ge in Y1;
    destruct (gtb x upper) eqn:X2; destruct (gtb y upper) eqn:Y2;
    try apply gtb_gt in X2; try apply gtb_le in X2;
    try apply gtb_gt in Y2; try apply gtb_le in Y2; lra.
Qed.

(** A label is only put on a star that is drawn in yellow. *)
Lemma marker_text_yellow (row : star_row) :
  marker_text row <> EmptyString -> marker_colour row = yellow.
Proof.
  unfold marker_text, marker_colour.
  destruct (ltb (row_mag row) 1.4 && gtb (alt_deg row) 5) eqn:E;
    [| congruence].
  intros _. apply andb_true_iff in E as [_ E]. apply gtb_gt in E.
  assert (G : gtb (alt_deg row) 0 = true) by (apply gtb_gt; lra).
  now rewrite G.
Qed.

(** X7: for a table computed by [compute_stars_positions_for_time], every
    star marker of the 2D chart lies within the axis ranges of the chart
    (azimuth in [0, 360), altitude in [-90, 90]) and has a size in
    [4, 18]; it is yellow exactly when the row is flagged visible, so that
    with "only visible" set exactly the yellow markers remain; a marker
    that carries a label is yellow; and a brighter star (smaller
    magnitude) never gets a smaller marker. *)
Theorem stars_trace_2d_well_formed
    (transform_to_altaz : EarthLocation -> Time -> Q -> Q -> Q * Q)
    (astropy_time : Time) (location : EarthLocation)
    (stars : list star) (stars_df : list star_row) (show_only_visible : bool) :
  compute_stars_positions_for_time transform_to_altaz astropy_time location stars
  = Some stars_df ->
  let markers := stars_trace_2d show_only_visible stars_df in
  Forall (fun m =>
            (0 <= marker_x m /\ marker_x m < 360) /\
            (-90 <= marker_y m /\ marker_y m <= 90) /\
            (4 <= marker_sz m /\ marker_sz m <= 18) /\
            (marker_label m <> EmptyString -> marker_col m = yellow))
         markers /\
  Forall2 (fun row m => marker_col m = yellow <-> visible row = true)
          (plot_rows show_only_visible stars_df) markers /\
  (show_only_visible = true ->
   Forall (fun m => marker_col m = yellow) markers /\
   List.length markers
   = List.length (filter (fun row => gtb (alt_deg row) 0) stars_df)) /\
  (show_only_visible = false -> List.length markers = List.length stars) /\
  (forall r1 r2, row_mag r1 <= row_mag r2 -> marker_size r2 <= marker_size r1).
Proof.
  intros H markers.
  apply table_is_map in H. subst stars_df.
  set (finish := fun r => clip_alt (normalize_az
                   (star_position transform_to_altaz astropy_time location r))) in *.
  assert (Hrow : forall row, In row (map finish stars) ->
            ((0 <= az_deg row /\ az_deg row < 360) /\
             (-90 <= alt_deg row /\ alt_deg row <= 90)) /\
            (visible row = true <-> 0 < alt_deg row)).
  { intros row Hin. apply in_map_iff in Hin as (r & <- & _).
    split; [apply finish_ranges | apply finish_visible]. }
  assert (Hsub : forall row, In row (plot_rows show_only_visible (map finish stars)) ->
                             In row (map finish stars)).
  { intros row. unfold plot_rows. destruct show_only_visible; [| auto].
    intros Hin. now apply filter_In in Hin as [Hin _]. }
  assert (Hcol : forall row, In row (map finish stars) ->
                   (marker_colour row = yellow <-> visible row = true)).
  { intros row Hin. destruct (Hrow row Hin) as [_ Hv]. rewrite Hv.
    unfold marker_colour. destruct (gtb (alt_deg row) 0) eqn:E.
    - apply gtb_gt in E. split; auto.
    - apply gtb_le in E. split; [discriminate | intros; lra]. }
  split; [| split; [| split; [| split]]].
  - unfold markers, stars_trace_2d. apply Forall_forall. intros m Hm.
    apply in_map_iff in Hm as (row & <- & Hin).
    cbn [marker_x marker_y marker_sz marker_col marker_label].
    destruct (Hrow row (Hsub row Hin)) as [[Haz Halt] _].
    split; [exact Haz |]. split; [exact Halt |].
    split; [apply marker_size_range | apply marker_text_yellow].
  - unfold markers, stars_trace_2d.
    assert (G : forall l, (forall row, In row l -> In row (map finish stars)) ->
                Forall2 (fun row m => marker_col m = yellow <-> visible row = true) l
                  (map (fun row => mkMarker (az_deg row) (alt_deg row)
                          (marker_size row) (marker_colour row) (marker_text row)) l)).
    { induction l as [| row l IH]; intros Hl; cbn [map]; constructor.
      - cbn [marker_col]. apply Hcol, Hl. now left.
      - apply IH. intros row' Hin. apply Hl. now right. }
    apply G, Hsub.
  - intros ->. unfold markers, stars_trace_2d, plot_rows. split.
    + apply Forall_forall. intros m Hm.
      apply in_map_iff in Hm as (row & <- & Hin). cbn [marker_col].
      apply filter_In in Hin as [Hin Hv]. now apply Hcol.
    + rewrite length_map. f_equal. apply filter_ext_in. intros row Hin.
      destruct (Hrow row Hin) as [_ Hv].
      destruct (visible row) eqn:V; destruct (gtb (alt_deg row) 0) eqn:G;
        try reflexivity.
      * apply gtb_le in G. assert (0 < alt_deg row) by now apply Hv. lra.
      * apply gtb_gt in G. apply Hv in G. discriminate.
  - intros ->. unfold markers, stars_trace_2d, plot_rows.
    now rewrite !length_map.
  - intros r1 r2 Hmag. unfold marker_size. apply clip_monotone; lra.
Qed.

Lemma stars_trace_2d_well_formed_witness :
  Forall (fun m => marker_col m = yellow)
    (stars_trace_2d true
       (map (fun r => clip_alt (normalize_az
                        (star_position linear_altaz kolkata_six_am kolkata r)))
            get_star_catalog)).
Proof.
  apply (stars_trace_2d_well_formed linear_altaz kolkata_six_am kolkata
           get_star_catalog _ true eq_refl).
  reflexivity.
Defined.

(** ** Geometry helpers *)

Section GeometryProperties.

Local Open Scope R_scope.

Lemma linspace_length (start stop : R) (n : nat) :
  List.length (Geometry.linspace start stop n) = n.
Proof.
  unfold Geometry.linspace. destruct n as [| [| n]]; try reflexivity.
  now rewrite length_map, length_seq.
Qed.

Lemma linspace_nth (start stop : R) (n i : nat) :
  (2 <= n)%nat -> (i < n)%nat ->
  nth i (Geometry.linspace start stop n) 0
  = start + INR i * ((stop - start) / INR (n - 1)).
Proof.
  intros Hn Hi. unfold Geometry.linspace.
  destruct n as [| [| n]]; try lia.
  set (f := fun i : nat => start + INR i * ((stop - start) / INR (S (S n) - 1))).
  rewrite (nth_indep _ 0 (f 0%nat)) by now rewrite length_map, length_seq.
  rewrite map_nth, seq_nth by assumption. reflexivity.
Qed.

Lemma linspace_first (start stop : R) (n : nat) :
  (1 <= n)%nat -> nth 0 (Geometry.linspace start stop n) 0 = start.
Proof.
  intros Hn. destruct n as [| [| n]]; try lia; [reflexivity |].
  rewrite linspace_nth by lia. simpl INR at 1. Lra.lra.
Qed.

Lemma linspace_last (start stop : R) (n : nat) :
  (2 <= n)%nat -> nth (n - 1) (Geometry.linspace start stop n) 0 = stop.
Proof.
  intros Hn. rewrite linspace_nth by lia.
  assert (H : INR (n - 1) <> 0) by (apply not_0_INR; lia).
  field. exact H.
Qed.

Lemma linspace_range (start stop : R) (n : nat) (x : R) :
  start <= stop -> In x (Geometry.linspace start stop n) ->
  start <= x <= stop.
Proof.
  intros Hle Hin. destruct n as [| [| n]].
  - destruct Hin.
  - destruct Hin as [<- | []]. Lra.lra.
  - unfold Geometry.linspace in Hin.
    apply in_map_iff in Hin as (i & <- & Hi). apply in_seq in Hi.
    set (m := (S (S n) - 1)%nat) in *.
    assert (Hm : 0 < INR m) by (apply lt_0_INR; unfold m; lia).
    assert (Hi0 : 0 <= INR i) by apply pos_INR.
    assert (Him : INR i <= INR m) by (apply le_INR; unfold m; lia).
    assert (Hfrac : 0 <= INR i / INR m <= 1).
    { split.
      - apply Rmult_le_pos; [assumption |].
        left. now apply Rinv_0_lt_compat.
      - apply (Rmult_le_reg_r (INR m)); [assumption |].
        unfold Rdiv. rewrite Rmult_assoc, Rinv_l by Lra.lra. Lra.lra. }
    replace (INR i * ((stop - start) / INR m))
      with (INR i / INR m * (stop - start)) by (field; Lra.lra).
    destruct Hfrac. split; Lra.nra.
Qed.

Lemma linspace_In_nth (start stop : R) (n i : nat) :
  (i < n)%nat -> In (nth i (Geometry.linspace start stop n) 0)
                    (Geometry.linspace start stop n).
Proof. intros Hi. apply nth_In. now rewrite linspace_length. Qed.

End GeometryProperties.

Section UnitVectors.

Local Open Scope R_scope.

Lemma radians_values :
  Geometry.radians 0 = 0 /\ Geometry.radians 90 = PI / 2 /\
  Geometry.radians 180 = PI /\ Geometry.radians 360 = 2 * PI.
Proof. unfold Geometry.radians. repeat split; field. Qed.

Lemma radians_quarter (deg : R) :
  -90 <= deg <= 90 -> - (PI / 2) <= Geometry.radians deg <= PI / 2.
Proof.
  intros [Hlo Hhi]. unfold Geometry.radians.
  pose proof PI_RGT_0 as Hpi. split; Lra.nra.
Qed.

(** Between -90 and 90 degrees the sine has the sign of the angle. *)
Lemma sin_radians_sign (deg : R) :
  -90 <= deg <= 90 ->
  (0 < sin (Geometry.radians deg) <-> 0 < deg) /\
  (sin (Geometry.radians deg) = 0 <-> deg = 0).
Proof.
  intros Hd. pose proof PI_RGT_0 as Hpi.
  destruct (radians_quarter deg Hd) as [Rlo Rhi].
  assert (Hsgn : forall d, Geometry.radians d = d * (PI / 180))
    by (intros d; unfold Geometry.radians; field).
  destruct (Rtotal_order deg 0) as [Hneg | [Hzero | Hpos]].
  - assert (Hr : Geometry.radians deg < 0) by (rewrite Hsgn; Lra.nra).
    assert (Hs : sin (Geometry.radians deg) < 0)
      by (apply sin_lt_0_var; Lra.lra).
    split; split; intros; Lra.lra.
  - subst deg. destruct radians_values as (-> & _). rewrite sin_0.
    split; split; intros; Lra.lra.
  - assert (Hr : 0 < Geometry.radians deg) by (rewrite Hsgn; Lra.nra).
    assert (Hs : 0 < sin (Geometry.radians deg))
      by (apply sin_gt_0; Lra.lra).
    split; split; intros; Lra.lra.
Qed.

Lemma unit_vector_norm (alt_deg az_deg : R) :
  let v := Geometry.altaz_to_unit_vector alt_deg az_deg in
  fst (fst v) * fst (fst v) + snd (fst v) * snd (fst v) + snd v * snd v = 1.
Proof.
  unfold Geometry.altaz_to_unit_vector; cbn [fst snd].
  pose proof (sin2_cos2 (Geometry.radians alt_deg)) as Ha.
  pose proof (sin2_cos2 (Geometry.radians az_deg)) as Hz.
  unfold Rsqr in Ha, Hz.
  set (sa := sin (Geometry.radians alt_deg)) in *.
  set (ca := cos (Geometry.radians alt_deg)) in *.
  set (sz := sin (Geometry.radians az_deg)) in *.
  set (cz := cos (Geometry.radians az_deg)) in *.
  replace (ca * sz * (ca * sz) + ca * cz * (ca * cz) + sa * sa)
    with (ca * ca * (sz * sz + cz * cz) + sa * sa) by ring.
  rewrite Hz. Lra.lra.
Qed.

(** X8: [altaz_to_unit_vector] returns a vector of length 1 in the
    East-North-Up frame of its docstring: altitude 0 and azimuth 0 give
    North (0, 1, 0); and for an altitude between -90 and 90 degrees the
    Up component is not negative at or above the horizon and not positive
    at or below it, the East component is not negative for an azimuth
    between 0 and 180 degrees, and the North component is not negative
    for an azimuth between -90 and 90 degrees. *)
Theorem altaz_to_unit_vector_enu (alt_deg az_deg : R) :
  let v := Geometry.altaz_to_unit_vector alt_deg az_deg in
  fst (fst v) * fst (fst v) + snd (fst v) * snd (fst v) + snd v * snd v = 1 /\
  (-90 <= alt_deg <= 90 ->
   (0 <= alt_deg -> 0 <= snd v) /\
   (alt_deg <= 0 -> snd v <= 0) /\
   (0 <= az_deg <= 180 -> 0 <= fst (fst v)) /\
   (-90 <= az_deg <= 90 -> 0 <= snd (fst v))) /\
  Geometry.altaz_to_unit_vector 0 0 = (0, 1, 0).
Proof.
  intros v. destruct radians_values as (R0 & _ & _ & _).
  pose proof PI_RGT_0 as Hpi.
  split; [apply unit_vector_norm |]. split.
  - intros Hd. unfold v, Geometry.altaz_to_unit_vector; cbn [fst snd].
    destruct (radians_quarter alt_deg Hd) as [Qlo Qhi].
    assert (Hc : 0 <= cos (Geometry.radians alt_deg))
      by (apply cos_ge_0; assumption).
    assert (Hsgn : forall d, Geometry.radians d = d * (PI / 180))
      by (intros d; unfold Geometry.radians; field).
    split; [| split; [| split]].
    + intros H. apply sin_ge_0; [rewrite Hsgn; Lra.nra | Lra.lra].
    + intros H. destruct (sin_radians_sign alt_deg Hd) as [S1 _].
      apply Rnot_lt_le. intros K. apply S1 in K. Lra.lra.
    + intros [H0 H1]. apply Rmult_le_pos; [exact Hc |].
      apply sin_ge_0; rewrite Hsgn; Lra.nra.
    + intros Ha. destruct (radians_quarter az_deg Ha) as [Alo Ahi].
      apply Rmult_le_pos; [exact Hc |]. apply cos_ge_0; assumption.
  - unfold Geometry.altaz_to_unit_vector. rewrite R0, sin_0, cos_0.
    repeat f_equal; ring.
Qed.

End UnitVectors.

Section RingsAndDome.

Local Open Scope R_scope.

Lemma map_nth_lt {A B : Type} (f : A -> B) (l : list A) (i : nat) (d : B) (d' : A) :
  (i < List.length l)%nat -> nth i (map f l) d = f (nth i l d').
Proof.
  intros Hi. rewrite (nth_indep _ d (f d')) by now rewrite length_map.
  apply map_nth.
Qed.

Lemma sin_cos_square (x r : R) :
  sin x * r * (sin x * r) + cos x * r * (cos x * r) = r * r.
Proof.
  pose proof (sin2_cos2 x) as H. unfold Rsqr in H.
  replace (sin x * r * (sin x * r) + cos x * r * (cos x * r))
    with ((sin x * sin x + cos x * cos x) * (r * r)) by ring.
  rewrite H. ring.
Qed.

(** X9: [ring_points_alt] returns [n] values of x and of y and one value
    of z, [radius * sin(alt)]; every (x, y) pair together with that z lies
    on the sphere of the given radius; with a point or more the ring
    starts due North, at x = 0. *)
Theorem ring_points_alt_on_sphere (alt_deg radius : R) (n : nat) :
  let ring := Geometry.ring_points_alt alt_deg radius n in
  let xs := fst (fst ring) in
  let ys := snd (fst ring) in
  let z := snd ring in
  (List.length xs = n /\ List.length ys = n) /\
  z = sin (Geometry.radians alt_deg) * radius /\
  (forall i, (i < n)%nat ->
     nth i xs 0 * nth i xs 0 + nth i ys 0 * nth i ys 0 + z * z
     = radius * radius) /\
  ((1 <= n)%nat ->
   nth 0 xs 0 = 0 /\
   nth 0 ys 0 = cos (Geometry.radians alt_deg) * radius).
Proof.
  intros ring xs ys z.
  unfold ring, Geometry.ring_points_alt in xs, ys, z; cbn [fst snd] in xs, ys, z.
  set (az := Geometry.linspace 0 360 n) in *.
  assert (Hlen : List.length az = n) by apply linspace_length.
  assert (Hx : forall i, (i < n)%nat ->
            nth i xs 0 = cos (Geometry.radians alt_deg)
                         * sin (Geometry.radians (nth i az 0)) * radius).
  { intros i Hi. unfold xs.
    rewrite (map_nth_lt _ _ i 0 0) by (rewrite length_map; lia).
    rewrite (map_nth_lt _ _ i 0 0) by lia. reflexivity. }
  assert (Hy : forall i, (i < n)%nat ->
            nth i ys 0 = cos (Geometry.radians alt_deg)
                         * cos (Geometry.radians (nth i az 0)) * radius).
  { intros i Hi. unfold ys.
    rewrite (map_nth_lt _ _ i 0 0) by (rewrite length_map; lia).
    rewrite (map_nth_lt _ _ i 0 0) by lia. reflexivity. }
  split; [| split; [| split]].
  - unfold xs, ys. rewrite !length_map. now split.
  - reflexivity.
  - intros i Hi. rewrite Hx, Hy by assumption.
    unfold z, Geometry.altaz_to_unit_vector; cbn [snd].
    pose proof (sin2_cos2 (Geometry.radians alt_deg)) as Ha.
    pose proof (sin2_cos2 (Geometry.radians (nth i az 0))) as Hz.
    unfold Rsqr in Ha, Hz.
    set (sa := sin (Geometry.radians alt_deg)) in *.
    set (ca := cos (Geometry.radians alt_deg)) in *.
    set (sz := sin (Geometry.radians (nth i az 0))) in *.
    set (cz := cos (Geometry.radians (nth i az 0))) in *.
    replace (ca * sz * radius * (ca * sz * radius)
             + ca * cz * radius * (ca * cz * radius)
             + sa * radius * (sa * radius))
      with ((ca * ca * (sz * sz + cz * cz) + sa * sa) * (radius * radius))
      by ring.
    rewrite Hz, Rmult_1_r, Rplus_comm, Ha. ring.
  - intros Hn. rewrite Hx, Hy by lia.
    unfold az. rewrite linspace_first by lia.
    destruct radians_values as (R0 & _ & _ & _).
    rewrite R0, sin_0, cos_0. split; ring.
Qed.

(** X10: [meridian_points_az] returns [n] points, all on the sphere of the
    given radius and, for a radius that is not negative, none below the
    horizon plane; the first lies on the horizon in the direction of the
    azimuth, and with two points or more the last is at the height of the
    zenith, [z = radius]. *)
Theorem meridian_points_az_horizon_to_zenith (az_deg radius : R) (n : nat) :
  let arc := Geometry.meridian_points_az az_deg radius n in
  let xs := fst (fst arc) in
  let ys := snd (fst arc) in
  let zs := snd arc in
  (List.length xs = n /\ List.length ys = n /\ List.length zs = n) /\
  (forall i, (i < n)%nat ->
     nth i xs 0 * nth i xs 0 + nth i ys 0 * nth i ys 0 + nth i zs 0 * nth i zs 0
     = radius * radius /\
     (0 <= radius -> 0 <= nth i zs 0)) /\
  ((1 <= n)%nat ->
   nth 0 xs 0 = sin (Geometry.radians az_deg) * radius /\
   nth 0 ys 0 = cos (Geometry.radians az_deg) * radius /\
   nth 0 zs 0 = 0) /\
  ((2 <= n)%nat -> nth (n - 1) zs 0 = radius).
Proof.
  intros arc xs ys zs.
  unfold arc, Geometry.meridian_points_az in xs, ys, zs;
    cbn [fst snd] in xs, ys, zs.
  set (alt := Geometry.linspace 0 90 n) in *.
  assert (Hlen : List.length alt = n) by apply linspace_length.
  assert (Hx : forall i, (i < n)%nat ->
            nth i xs 0 = cos (Geometry.radians (nth i alt 0))
                         * sin (Geometry.radians az_deg) * radius).
  { intros i Hi. unfold xs.
    rewrite (map_nth_lt _ _ i 0 0) by (rewrite length_map; lia).
    rewrite (map_nth_lt _ _ i 0 0) by lia. reflexivity. }
  assert (Hy : forall i, (i < n)%nat ->
            nth i ys 0 = cos (Geometry.radians (nth i alt 0))
                         * cos (Geometry.radians az_deg) * radius).
  { intros i Hi. unfold ys.
    rewrite (map_nth_lt _ _ i 0 0) by (rewrite length_map; lia).
    rewrite (map_nth_lt _ _ i 0 0) by lia. reflexivity. }
  assert (Hz : forall i, (i < n)%nat ->
            nth i zs 0 = sin (Geometry.radians (nth i alt 0)) * radius).
  { intros i Hi. unfold zs.
    rewrite (map_nth_lt _ _ i 0 0) by (rewrite length_map; lia).
    rewrite (map_nth_lt _ _ i 0 0) by lia. reflexivity. }
  destruct radians_values as (R0 & R90 & _ & _).
  split; [| split; [| split]].
  - unfold xs, ys, zs. rewrite !length_map. repeat split; assumption.
  - intros i Hi. rewrite Hx, Hy, Hz by assumption. split.
    + pose proof (sin2_cos2 (Geometry.radians (nth i alt 0))) as Ha.
      pose proof (sin2_cos2 (Geometry.radians az_deg)) as Hzz.
      unfold Rsqr in Ha, Hzz.
      set (sa := sin (Geometry.radians (nth i alt 0))) in *.
      set (ca := cos (Geometry.radians (nth i alt 0))) in *.
      set (sz := sin (Geometry.radians az_deg)) in *.
      set (cz := cos (Geometry.radians az_deg)) in *.
      replace (ca * sz * radius * (ca * sz * radius)
               + ca * cz * radius * (ca * cz * radius)
               + sa * radius * (sa * radius))
        with ((ca * ca * (sz * sz + cz * cz) + sa * sa) * (radius * radius))
        by ring.
      rewrite Hzz, Rmult_1_r, Rplus_comm, Ha. ring.
    + intros Hr.
      assert (Hin : 0 <= nth i alt 0 <= 90).
      { apply (linspace_range 0 90 n); [Lra.lra |].
        now apply linspace_In_nth. }
      assert (Hq : - (PI / 2) <= Geometry.radians (nth i alt 0) <= PI / 2)
        by (apply radians_quarter; Lra.lra).
      assert (Hnn : 0 <= Geometry.radians (nth i alt 0)).
      { unfold Geometry.radians. pose proof PI_RGT_0. destruct Hin.
        unfold Rdiv. apply Rmult_le_pos; [apply Rmult_le_pos |]; Lra.lra. }
      assert (Hs : 0 <= sin (Geometry.radians (nth i alt 0))).
      { apply sin_ge_0; [assumption |]. pose proof PI_RGT_0. Lra.lra. }
      apply Rmult_le_pos; assumption.
  - intros Hn. rewrite Hx, Hy, Hz by lia.
    unfold alt. rewrite linspace_first by lia.
    rewrite R0, sin_0, cos_0. repeat split; ring.
  - intros Hn. rewrite Hz by lia.
    unfold alt. rewrite linspace_last by lia.
    rewrite R90, sin_PI2. ring.
Qed.

End RingsAndDome.

Section Dome.

Local Open Scope R_scope.

(** X11: [make_dome_mesh] returns three grids of [n_phi] rows by [n_theta]
    columns; every grid point lies on the sphere of the given radius and,
    for a radius that is not negative, not below the horizon plane (the
    mesh is the upper hemisphere); the first row is the zenith. *)
Theorem make_dome_mesh_hemisphere (radius : R) (n_theta n_phi : nat) :
  let mesh := Geometry.make_dome_mesh radius n_theta n_phi in
  let X := fst (fst mesh) in
  let Y := snd (fst mesh) in
  let Z := snd mesh in
  (List.length X = n_phi /\ List.length Y = n_phi /\ List.length Z = n_phi) /\
  (forall i j, (i < n_phi)%nat -> (j < n_theta)%nat ->
     let x := nth j (nth i X []) 0 in
     let y := nth j (nth i Y []) 0 in
     let z := nth j (nth i Z []) 0 in
     (List.length (nth i X []) = n_theta /\
      List.length (nth i Y []) = n_theta /\
      List.length (nth i Z []) = n_theta) /\
     x * x + y * y + z * z = radius * radius /\
     (0 <= radius -> 0 <= z) /\
     (i = 0%nat -> x = 0 /\ y = 0 /\ z = radius)).
Proof.
  intros mesh X Y Z.
  unfold mesh, Geometry.make_dome_mesh in X, Y, Z; cbn [fst snd] in X, Y, Z.
  set (theta := Geometry.linspace 0 (2 * PI) n_theta) in *.
  set (phi := Geometry.linspace 0 (PI / 2) n_phi) in *.
  assert (Ht : List.length theta = n_theta) by apply linspace_length.
  assert (Hp : List.length phi = n_phi) by apply linspace_length.
  split.
  - unfold X, Y, Z. rewrite !length_map. repeat split; assumption.
  - intros i j Hi Hj x y z.
    assert (HX : nth i X [] = map (fun t => radius * sin (nth i phi 0) * sin t) theta)
      by (unfold X; now rewrite (map_nth_lt _ _ i [] 0) by lia).
    assert (HY : nth i Y [] = map (fun t => radius * sin (nth i phi 0) * cos t) theta)
      by (unfold Y; now rewrite (map_nth_lt _ _ i [] 0) by lia).
    assert (HZ : nth i Z [] = map (fun t => radius * cos (nth i phi 0)) theta)
      by (unfold Z; now rewrite (map_nth_lt _ _ i [] 0) by lia).
    assert (Hx : x = radius * sin (nth i phi 0) * sin (nth j theta 0))
      by (unfold x; rewrite HX; now rewrite (map_nth_lt _ _ j 0 0) by lia).
    assert (Hy : y = radius * sin (nth i phi 0) * cos (nth j theta 0))
      by (unfold y; rewrite HY; now rewrite (map_nth_lt _ _ j 0 0) by lia).
    assert (Hz : z = radius * cos (nth i phi 0))
      by (unfold z; rewrite HZ; now rewrite (map_nth_lt _ _ j 0 0) by lia).
    split; [rewrite HX, HY, HZ, !length_map; repeat split; assumption |].
    split; [| split].
    + rewrite Hx, Hy, Hz.
      pose proof (sin2_cos2 (nth i phi 0)) as Ha.
      pose proof (sin2_cos2 (nth j theta 0)) as Hb.
      unfold Rsqr in Ha, Hb.
      set (sp := sin (nth i phi 0)) in *. set (cp := cos (nth i phi 0)) in *.
      set (st := sin (nth j theta 0)) in *. set (ct := cos (nth j theta 0)) in *.
      replace (radius * sp * st * (radius * sp * st)
               + radius * sp * ct * (radius * sp * ct)
               + radius * cp * (radius * cp))
        with ((sp * sp * (st * st + ct * ct) + cp * cp) * (radius * radius))
        by ring.
      rewrite Hb, Rmult_1_r, Ha. ring.
    + intros Hr. rewrite Hz.
      pose proof PI_RGT_0 as Hpi.
      assert (Hin : 0 <= nth i phi 0 <= PI / 2).
      { apply (linspace_range 0 (PI / 2) n_phi); [Lra.lra |].
        now apply linspace_In_nth. }
      apply Rmult_le_pos; [assumption |].
      apply cos_ge_0; Lra.lra.
    + intros ->. rewrite Hx, Hy, Hz.
      unfold phi. rewrite linspace_first by lia.
      rewrite sin_0, cos_0. repeat split; ring.
Qed.

(** X12: for a table computed by [compute_stars_positions_for_time], every
    star point of the 3D planetarium lies on the unit sphere, and it lies
    above the horizon plane (positive Up component) exactly when its row
    is flagged visible. *)
Theorem stars_trace_3d_above_horizon_iff_visible
    (transform_to_altaz : EarthLocation -> Time -> Q -> Q -> Q * Q)
    (astropy_time : Time) (location : EarthLocation)
    (stars : list star) (stars_df : list star_row) (show_only_visible : bool) :
  compute_stars_positions_for_time transform_to_altaz astropy_time location stars
  = Some stars_df ->
  Forall2 (fun row v =>
             fst (fst v) * fst (fst v) + snd (fst v) * snd (fst v)
             + snd v * snd v = 1 /\
             (0 < snd v <-> visible row = true))
          (plot_rows show_only_visible stars_df)
          (Geometry.stars_trace_3d show_only_visible stars_df).
Proof.
  intros H. apply table_is_map in H. subst stars_df.
  set (finish := fun r => clip_alt (normalize_az
                   (star_position transform_to_altaz astropy_time location r))).
  unfold Geometry.stars_trace_3d.
  assert (Hsub : forall row, In row (plot_rows show_only_visible (map finish stars)) ->
                             In row (map finish stars)).
  { intros row. unfold plot_rows. destruct show_only_visible; [| auto].
    intros Hin. now apply filter_In in Hin as [Hin _]. }
  revert Hsub. generalize (plot_rows show_only_visible (map finish stars)).
  induction l as [| row l IH]; intros Hsub; cbn [map]; constructor.
  - split; [apply unit_vector_norm |].
    assert (Hin : In row (map finish stars)) by (apply Hsub; now left).
    apply in_map_iff in Hin as (r & <- & _).
    destruct (finish_ranges transform_to_altaz astropy_time location r)
      as [_ [Hlo Hhi]].
    pose proof (finish_visible transform_to_altaz astropy_time location r) as Hv.
    fold finish in Hlo, Hhi, Hv.
    assert (Hr : -90 <= Q2R (alt_deg (finish r)) <= 90).
    { apply Qle_Rle in Hlo, Hhi. split.
      - replace (-90) with (Q2R (-90)%Q); [exact Hlo |].
        unfold Q2R; simpl. Lra.lra.
      - replace 90 with (Q2R 90%Q); [exact Hhi |].
        unfold Q2R; simpl. Lra.lra. }
    unfold Geometry.altaz_to_unit_vector; cbn [snd].
    destruct (sin_radians_sign _ Hr) as [Hs _].
    rewrite Hs, Hv.
    replace 0 with (Q2R 0%Q) by (unfold Q2R; simpl; Lra.lra).
    split; [apply Rlt_Qlt | apply Qlt_Rlt].
  - apply IH. intros row' Hin. apply Hsub. now right.
Qed.

End Dome.

Lemma stars_trace_3d_above_horizon_iff_visible_witness :
  List.length (Geometry.stars_trace_3d false
     (map clip_alt (map normalize_az
        (map (star_position linear_altaz kolkata_six_am kolkata)
             get_star_catalog)))) = 11%nat.
Proof.
  pose proof (stars_trace_3d_above_horizon_iff_visible linear_altaz
                kolkata_six_am kolkata get_star_catalog _ false eq_refl) as H.
  apply Forall2_length in H. rewrite <- H. reflexivity.
Defined.

(** ** The refresh bookkeeping of [main] *)

Section Refresh.

Context {T : Type}.

Lemma refresh_tick_cases (now : datetime) (s : session T) :
  (0 <= plot_refresh_counter s < 1200)%Z ->
  let ticked := geb (total_seconds now (last_update s)) 1 in
  let due := ticked && (plot_refresh_counter s =? 1199)%Z in
  refresh_tick now s
  = (if due
     then mkSession now now now 0%Z (stars_df_cached s)
     else if ticked
          then mkSession now (last_plot_update s) now
                         (plot_refresh_counter s + 1)%Z (stars_df_cached s)
          else s,
     due).
Proof.
  intros Hc ticked due. unfold due, refresh_tick. cbv zeta. fold ticked.
  destruct ticked; cbn [andb plot_refresh_counter last_update current_time
                         last_plot_update stars_df_cached].
  - destruct (Z.eqb_spec (plot_refresh_counter s) 1199) as [E | E].
    + rewrite E. reflexivity.
    + destruct (Z.leb_spec 1200 (plot_refresh_counter s + 1)) as [L | L];
        [lia | reflexivity].
  - destruct (Z.leb_spec 1200 (plot_refresh_counter s)) as [L | L];
      [lia | reflexivity].
Qed.

(** One tick keeps the count: a refresh is due exactly on the tick that
    finds the counter at 1199, which is at least 1200 seconds after the
    instant counted from, and the count starts again from that tick. *)
Lemma refresh_tick_counts (since now : datetime) (s : session T) :
  refresh_invariant since s ->
  let s' := fst (refresh_tick now s) in
  let plot_update_needed := snd (refresh_tick now s) in
  (plot_update_needed = true <->
   1 <= total_seconds now (last_update s) /\ plot_refresh_counter s = 1199%Z) /\
  (plot_update_needed = true ->
   1200 <= total_seconds now since /\
   last_plot_update s' = now /\ last_update s' = now /\
   plot_refresh_counter s' = 0%Z /\
   refresh_invariant now s') /\
  (plot_update_needed = false ->
   last_plot_update s' = last_plot_update s /\
   (plot_refresh_counter s <= plot_refresh_counter s'
                           <= plot_refresh_counter s + 1)%Z /\
   refresh_invariant since s') /\
  stars_df_cached s' = stars_df_cached s.
Proof.
  intros [Hc Hj] s' needed. unfold s', needed.
  rewrite (refresh_tick_cases now s Hc). cbn [fst snd].
  destruct (geb (total_seconds now (last_update s)) 1) eqn:Etick.
  - apply geb_ge in Etick. unfold total_seconds in Etick.
    assert (Hstep : last_update s + 1 / 86400 <= now) by qlin.
    destruct (Z.eqb_spec (plot_refresh_counter s) 1199) as [E | E];
      cbn [andb].
    + rewrite E in Hj. change (inject_Z 1199) with 1199 in Hj.
      split; [| split; [| split]].
      * split; [intros _; split; [unfold total_seconds; lra | exact E] | reflexivity].
      * intros _. cbn [plot_refresh_counter last_plot_update last_update].
        split; [unfold total_seconds; qlin |].
        repeat (split; [reflexivity |]).
        split; cbn [plot_refresh_counter last_update];
          [lia | change (inject_Z 0) with 0; qlin].
      * discriminate.
      * reflexivity.
    + split; [| split; [| split]].
      * split; [discriminate | intros [_ E']; contradiction].
      * discriminate.
      * intros _. cbn [plot_refresh_counter last_plot_update].
        split; [reflexivity |]. split; [lia |].
        split; cbn [plot_refresh_counter last_update]; [lia |].
        rewrite inject_Z_plus. change (inject_Z 1) with 1.
        revert Hj. generalize (inject_Z (plot_refresh_counter s)).
        intros q Hj. qlin.
      * reflexivity.
  - cbn [andb].
    split; [| split; [| split]].
    + split; [discriminate |]. intros [H1 _].
      apply geb_ge in H1. congruence.
    + discriminate.
    + intros _. split; [reflexivity |]. split; [lia | now split].
    + reflexivity.
Qed.

Lemma refresh_tick_cache (now : datetime) (s : session T) :
  stars_df_cached (fst (refresh_tick now s)) = stars_df_cached s.
Proof.
  unfold refresh_tick. cbv zeta. cbn [fst].
  destruct (geb _ 1); destruct (1200 <=? _)%Z; reflexivity.
Qed.

(** The table step leaves the clock fields of the session as they are. *)
Lemma refresh_stars_invariant (compute : T) (needed : bool)
    (since : datetime) (s : session T) :
  refresh_invariant since s ->
  refresh_invariant since (snd (refresh_stars compute needed s)).
Proof.
  intros H. unfold refresh_stars.
  destruct (negb needed); [destruct (stars_df_cached s) |]; exact H.
Qed.

(** One run of [main]: when a refresh is due the run is at least 1200
    seconds after the instant counted from and the count starts again
    from it; otherwise the count goes on. *)
Lemma main_run_counts (since now : datetime) (compute : T) (s : session T) :
  refresh_invariant since s ->
  let needed := snd (fst (main_run now compute s)) in
  let s' := snd (main_run now compute s) in
  (needed = true ->
   1200 <= total_seconds now since /\ refresh_invariant now s') /\
  (needed = false -> refresh_invariant since s').
Proof.
  intros Hinv.
  destruct (refresh_tick_counts since now s Hinv) as (_ & Hdue & Hnot & _).
  unfold main_run.
  destruct (refresh_tick now s) as [s1 needed]; cbn [fst snd] in *.
  assert (Hst : forall since', refresh_invariant since' s1 ->
            refresh_invariant since' (snd (refresh_stars compute needed s1)))
    by (intros; now apply refresh_stars_invariant).
  destruct (refresh_stars compute needed s1) as [shown s2]; cbn [fst snd] in *.
  split.
  - intros ->. destruct (Hdue eq_refl) as (H1 & _ & _ & _ & H2).
    split; [exact H1 | now apply Hst].
  - intros ->. destruct (Hnot eq_refl) as (_ & _ & H2). now apply Hst.
Qed.

Lemma main_runs_cons (now : datetime) (compute : T)
    (rest : list (datetime * T)) (s : session T) :
  main_runs ((now, compute) :: rest) s
  = ((fst (main_run now compute s))
       :: fst (main_runs rest (snd (main_run now compute s))),
     snd (main_runs rest (snd (main_run now compute s)))).
Proof.
  cbn [main_runs].
  destruct (main_run now compute s) as [[shown needed] s1]; cbn [fst snd].
  destruct (main_runs rest s1) as [out s2]. reflexivity.
Qed.

(** Over successive runs from a session that counts from [since]: the
    counter stays in range, a run on which a refresh is due is at least
    1200 seconds after [since], and at least 1200 seconds after every
    earlier run on which one was due. *)
Lemma main_runs_counts (runs : list (datetime * T)) :
  forall (since : datetime) (s : session T),
    refresh_invariant since s ->
    let outs := fst (main_runs runs s) in
    let s' := snd (main_runs runs s) in
    (0 <= plot_refresh_counter s' < 1200)%Z /\
    (forall j now_j c_j sh_j,
       nth_error runs j = Some (now_j, c_j) ->
       nth_error outs j = Some (sh_j, true) ->
       1200 <= total_seconds now_j since /\
       (forall i now_i c_i sh_i,
          (i < j)%nat ->
          nth_error runs i = Some (now_i, c_i) ->
          nth_error outs i = Some (sh_i, true) ->
          1200 <= total_seconds now_j now_i)).
Proof.
  induction runs as [| [now compute] rest IH]; intros since s Hinv outs s'.
  - unfold outs, s'. cbn [main_runs fst snd]. split; [apply Hinv |].
    intros [| j] now_j c_j sh_j H; discriminate.
  - unfold outs, s'. rewrite main_runs_cons. cbn [fst snd].
    destruct (main_run_counts since now compute s Hinv) as [Hdue Hnot].
    destruct (main_run now compute s) as [[shown needed] s1];
      cbn [fst snd] in *.
    destruct needed.
    + destruct (Hdue eq_refl) as [Hfar Hinv1].
      destruct (IH now s1 Hinv1) as [Hrange Hrest].
      split; [exact Hrange |].
      intros [| j] now_j c_j sh_j Hrun Hout; cbn [nth_error] in Hrun, Hout.
      * injection Hrun as <- <-. split; [exact Hfar |].
        intros i now_i c_i sh_i Hi. lia.
      * destruct (Hrest j now_j c_j sh_j Hrun Hout) as [Hj Hpairs].
        split; [unfold total_seconds in *; lra |].
        intros [| i] now_i c_i sh_i Hi Hruni Houti;
          cbn [nth_error] in Hruni, Houti.
        -- injection Hruni as <- <-. exact Hj.
        -- apply (Hpairs i now_i c_i sh_i); [lia | assumption | assumption].
    + pose proof (Hnot eq_refl) as Hinv1.
      destruct (IH since s1 Hinv1) as [Hrange Hrest].
      split; [exact Hrange |].
      intros [| j] now_j c_j sh_j Hrun Hout; cbn [nth_error] in Hrun, Hout.
      * discriminate.
      * destruct (Hrest j now_j c_j sh_j Hrun Hout) as [Hj Hpairs].
        split; [exact Hj |].
        intros [| i] now_i c_i sh_i Hi Hruni Houti;
          cbn [nth_error] in Hruni, Houti.
        -- discriminate.
        -- apply (Hpairs i now_i c_i sh_i); [lia | assumption | assumption].
Qed.

(** X13: over any sequence of runs of [main] from the session as the
    script initialises it, the counter stays in 0 .. 1199; a run on which
    a refresh is due ([plot_update_needed]) is at least 1200 seconds after
    the first clock reading of the initialisation, and at least 1200
    seconds after every earlier run on which one was due. *)
Theorem due_refreshes_1200_seconds_apart
    (runs : list (datetime * T)) (t1 t2 t3 : datetime) :
  let outs := fst (main_runs runs (initial_session t1 t2 t3)) in
  let s' := snd (main_runs runs (initial_session t1 t2 t3)) in
  (0 <= plot_refresh_counter s' < 1200)%Z /\
  (forall j now_j c_j sh_j,
     nth_error runs j = Some (now_j, c_j) ->
     nth_error outs j = Some (sh_j, true) ->
     1200 <= total_seconds now_j t1 /\
     (forall i now_i c_i sh_i,
        (i < j)%nat ->
        nth_error runs i = Some (now_i, c_i) ->
        nth_error outs i = Some (sh_i, true) ->
        1200 <= total_seconds now_j now_i)).
Proof.
  apply main_runs_counts.
  split; cbn [initial_session plot_refresh_counter last_update]; [lia |].
  change (inject_Z 0) with 0. qlin.
Qed.

End Refresh.

(** With a run every second the first refresh falls due on the 1200th
    run. *)
Lemma due_refreshes_1200_seconds_apart_witness :
  let runs := every_second 2460310 1200 in
  let outs := fst (main_runs runs (initial_session 2460310 2460310 2460310)) in
  nth_error outs 1199 = Some (1200%nat, true) /\
  1200 <= total_seconds (2460310 + 1200 / 86400) 2460310.
Proof.
  intros runs outs.
  assert (Hout : nth_error outs 1199 = Some (1200%nat, true))
    by (vm_compute; reflexivity).
  split; [exact Hout |].
  destruct (due_refreshes_1200_seconds_apart runs 2460310 2460310 2460310)
    as [_ H].
  destruct (H 1199%nat (2460310 + 1200 / 86400) 1200%nat 1200%nat) as [H1 _].
  - vm_compute. reflexivity.
  - exact Hout.
  - exact H1.
Defined.

Lemma last_nonempty_indep {A : Type} (x : A) (l : list A) (d d' : A) :
  last (x :: l) d = last (x :: l) d'.
Proof.
  revert x. induction l as [| y l IH]; intros x; [reflexivity |].
  change (last (x :: y :: l) d) with (last (y :: l) d).
  change (last (x :: y :: l) d') with (last (y :: l) d'). apply IH.
Qed.

Section Cache.

Context {T : Type}.

(** One run: the table shown is the fresh one when a refresh is due or
    nothing is cached, the cached one otherwise; it is what the session
    caches afterwards. *)
Lemma main_run_shown (now : datetime) (compute : T) (s : session T) :
  let shown := fst (fst (main_run now compute s)) in
  let needed := snd (fst (main_run now compute s)) in
  let s' := snd (main_run now compute s) in
  stars_df_cached s' = Some shown /\
  (needed = true -> shown = compute) /\
  (stars_df_cached s = None -> shown = compute) /\
  (needed = false -> forall c, stars_df_cached s = Some c -> shown = c).
Proof.
  pose proof (refresh_tick_cache now s) as Hcache.
  unfold main_run.
  destruct (refresh_tick now s) as [s1 needed]; cbn [fst snd] in *.
  unfold refresh_stars. rewrite Hcache.
  destruct needed; cbn [negb].
  - cbn [fst snd stars_df_cached].
    split; [reflexivity |].
    split; [reflexivity |]. split; [reflexivity | discriminate].
  - destruct (stars_df_cached s) as [c |] eqn:Ec; cbn [fst snd stars_df_cached].
    + split; [congruence |].
      split; [discriminate |]. split; [discriminate |].
      intros _ c' Hc'. congruence.
    + split; [reflexivity |].
      split; [reflexivity |]. split; [reflexivity |].
      intros _ c' Hc'. discriminate.
Qed.

(** X14: over any sequence of runs of [main], from any session, each run
    shows the table computed from its own inputs when a refresh is due or
    when no table is cached yet, and otherwise the very table shown by
    the run before it (the cached one for the first run), whatever its own
    inputs have become; the session caches the table shown last. *)
Theorem main_runs_show_stale_table_until_refresh
    (runs : list (datetime * T)) (s : session T) :
  let outs := fst (main_runs runs s) in
  let s' := snd (main_runs runs s) in
  List.length outs = List.length runs /\
  stars_df_cached s'
  = last (map (fun o => Some (fst o)) outs) (stars_df_cached s) /\
  (forall i now compute,
     nth_error runs i = Some (now, compute) ->
     exists shown needed,
       nth_error outs i = Some (shown, needed) /\
       let before :=
         match i with
         | O => stars_df_cached s
         | S j => option_map fst (nth_error outs j)
         end in
       (needed = true -> shown = compute) /\
       (before = None -> shown = compute) /\
       (needed = false -> forall c, before = Some c -> shown = c)).
Proof.
  revert s. induction runs as [| [now compute] rest IH]; intros s outs s'.
  - unfold outs, s'. cbn [main_runs fst snd map last List.length].
    split; [reflexivity |]. split; [reflexivity |].
    intros [| i] now compute H; discriminate.
  - unfold outs, s'. rewrite main_runs_cons. cbn [fst snd].
    destruct (main_run_shown now compute s) as (Hc1 & Hdue & Hnone & Hkeep).
    destruct (main_run now compute s) as [[shown needed] s1];
      cbn [fst snd] in *.
    destruct (IH s1) as (Hlen & Hlast & Hruns).
    split; [cbn [List.length]; now rewrite Hlen |].
    split.
    + rewrite Hlast, Hc1. cbn [map fst].
      destruct (map (fun o => Some (fst o)) (fst (main_runs rest s1)))
        as [| t l]; [reflexivity |].
      change (last (Some shown :: t :: l) (stars_df_cached s))
        with (last (t :: l) (stars_df_cached s)).
      apply last_nonempty_indep.
    + intros [| i] now' compute' Hnth.
      * cbn [nth_error] in Hnth. injection Hnth as <- <-.
        exists shown, needed.
        split; [reflexivity |]. cbv zeta.
        split; [exact Hdue |]. split; [exact Hnone | exact Hkeep].
      * cbn [nth_error] in Hnth.
        destruct (Hruns i now' compute' Hnth) as (sh & nd & Ho & Hd & Hn & Hk).
        exists sh, nd. split; [exact Ho |]. cbv zeta.
        split; [exact Hd |].
        destruct i as [| j]; cbn [nth_error option_map fst].
        -- rewrite Hc1 in Hn, Hk. split; [discriminate |].
           intros Hnd c Hc. apply (Hk Hnd). exact Hc.
        -- split; [exact Hn | exact Hk].
Qed.

End Cache.

(** From the initial session the first run computes its table, and the
    runs of the next seconds show that same table whatever their inputs
    have become. *)
Lemma main_runs_show_stale_table_until_refresh_witness :
  let s := initial_session 2460310 2460310 2460310 in
  let runs := every_second 2460310 3 in
  map fst (fst (main_runs runs s)) = [1%nat; 1%nat; 1%nat] /\
  stars_df_cached (snd (main_runs runs s)) = Some 1%nat.
Proof.
  intros s runs.
  destruct (main_runs_show_stale_table_until_refresh runs s) as (_ & Hcache & _).
  split; [vm_compute; reflexivity |].
  rewrite Hcache. vm_compute. reflexivity.
Defined.

(** ** Picking a star by name *)

Lemma select_star_some (stars_df : list star_row) (sel_name : string)
    (row : star_row) :
  select_star stars_df sel_name = Some row ->
  In row stars_df /\ row_name row = sel_name.
Proof.
  unfold select_star.
  destruct (filter _ stars_df) as [| r l] eqn:E; [discriminate |].
  intros H; injection H as <-.
  assert (Hin : In r (filter (fun row => String.eqb (row_name row) sel_name) stars_df))
    by (rewrite E; now left).
  apply filter_In in Hin as [Hin Hn]. split; [exact Hin |].
  now apply String.eqb_eq.
Qed.

Lemma select_star_none (stars_df : list star_row) (sel_name : string) :
  select_star stars_df sel_name = None <-> ~ In sel_name (map row_name stars_df).
Proof.
  unfold select_star.
  destruct (filter _ stars_df) as [| r l] eqn:E.
  - split; [| reflexivity]. intros _ Hin.
    apply in_map_iff in Hin as (row & Hn & Hin).
    assert (Hf : In row (filter (fun row => String.eqb (row_name row) sel_name) stars_df))
      by (apply filter_In; split; [exact Hin | now apply String.eqb_eq]).
    rewrite E in Hf. destruct Hf.
  - split; [discriminate |]. intros Hno. exfalso. apply Hno.
    assert (Hin : In r (filter (fun row => String.eqb (row_name row) sel_name) stars_df))
      by (rewrite E; now left).
    apply filter_In in Hin as [Hin Hn]. apply String.eqb_eq in Hn.
    apply in_map_iff. now exists r.
Qed.

(** With names that do not repeat, the row found under a row's name is
    that row. *)
Lemma select_star_own_name (stars_df : list star_row) (row : star_row) :
  NoDup (map row_name stars_df) -> In row stars_df ->
  select_star stars_df (row_name row) = Some row.
Proof.
  induction stars_df as [| r l IH]; intros Hnd Hin; [destruct Hin |].
  cbn [map] in Hnd. apply NoDup_cons_iff in Hnd as [Hfresh Hnd].
  unfold select_star. cbn [filter].
  destruct (String.eqb (row_name r) (row_name row)) eqn:E.
  - apply String.eqb_eq in E. destruct Hin as [-> | Hin]; [reflexivity |].
    exfalso. apply Hfresh. rewrite E. now apply in_map.
  - destruct Hin as [-> | Hin].
    + rewrite String.eqb_refl in E. discriminate.
    + apply (IH Hnd Hin).
Qed.

(** X15: in a table computed from a catalog whose names do not repeat,
    picking a star by the name of a catalog entry finds a row, and that
    row carries the entry's own name, right ascension, declination and
    magnitude; picking a name that is not in the catalog finds no row
    (the lookup raises). *)
Theorem select_star_finds_catalog_entry
    (transform_to_altaz : EarthLocation -> Time -> Q -> Q -> Q * Q)
    (astropy_time : Time) (location : EarthLocation)
    (stars : list star) (stars_df : list star_row) :
  compute_stars_positions_for_time transform_to_altaz astropy_time location stars
  = Some stars_df ->
  NoDup (map name stars) ->
  (forall entry, In entry stars ->
     exists row,
       select_star stars_df (name entry) = Some row /\
       row_name row = name entry /\ row_ra_h row = ra_h entry /\
       row_dec_deg row = dec_deg entry /\ row_mag row = mag entry) /\
  (forall sel_name, ~ In sel_name (map name stars) ->
     select_star stars_df sel_name = None).
Proof.
  intros H Hnd. apply table_is_map in H. subst stars_df.
  set (finish := fun r => clip_alt (normalize_az
                   (star_position transform_to_altaz astropy_time location r))).
  assert (Hnames : map row_name (map finish stars) = map name stars)
    by (rewrite map_map; apply map_ext; intros r; reflexivity).
  split.
  - intros entry Hin. exists (finish entry).
    split; [| repeat split].
    change (name entry) with (row_name (finish entry)).
    apply select_star_own_name; [now rewrite Hnames | now apply in_map].
  - intros sel_name Hno. apply select_star_none. now rewrite Hnames.
Qed.

Lemma catalog_names_distinct : NoDup (map name get_star_catalog).
Proof.
  cbn [map get_star_catalog name].
  repeat (apply NoDup_cons; [cbn [In]; intuition discriminate |]).
  apply NoDup_nil.
Qed.

Lemma select_star_finds_catalog_entry_witness :
  exists row,
    select_star
      (map clip_alt (map normalize_az
         (map (star_position linear_altaz kolkata_six_am kolkata)
              get_star_catalog)))
      "Dhruva (Polaris)" = Some row /\
    row_dec_deg row = 89.264109.
Proof.
  destruct (select_star_finds_catalog_entry linear_altaz kolkata_six_am kolkata
              get_star_catalog _ eq_refl catalog_names_distinct) as [Hfind _].
  destruct (Hfind (mkStar "Dhruva (Polaris)" 2.530301 89.264109 1.98))
    as (row & Hrow & _ & _ & Hdec & _).
  - cbn [get_star_catalog In]. repeat (try (left; reflexivity); right).
  - exists row. split; [exact Hrow | exact Hdec].
Defined.
